(** * use-media-recorder: the recording-state hook, embedded and verified

    Source: [src/use-media-recorder.ts] (the current version, lines 1-384).

    [useMediaRecorder] is a React hook.  React re-executes the hook body on
    every render, so the functions declared in the body ([startRecording],
    [handleStop], ...) are fresh function objects per render which close over
    that render's arguments.  What survives from one render to the next are the
    [useRef] cells and the [useState] cells.  The embedding follows this:

    - [St] holds the ref cells, the state cells, the recorder objects the hook
      has constructed (a heap, because a recorder outlives the ref that pointed
      to it and is also stored in [activeMediaRecorder]) and the trace of
      outward effects (status writes, caller callbacks, browser calls);
    - [Render] stands for one execution of the hook body: its arguments and the
      identity of the closures it declares.  Every function of the hook takes
      the render it belongs to as [self];
    - the functions are written in a state-and-exception monad [M], statement
      by statement as in the source.

    Conventions of the embedding:
    - the exported functions are called through the latest render's result, so
      a state cell read inside a function ([error]) is the current cell;
    - the promises of [getUserMedia]/[getDisplayMedia] are settled by the
      browser model within the call: an [async] function runs to completion,
      interleavings at its [await] points are not represented;
    - caller callbacks are opaque: a call is recorded in the trace, the callback
      neither throws nor calls back into the hook;
    - thrown values and error events are objects, hence truthy;
    - the browser side (what [stop()] does to a recorder's [state], how
      [addEventListener]/[removeEventListener] match a listener) follows the
      DOM and MediaStream Recording standards. *)

From stdpp Require Import base list strings gmap.
From Stdlib Require Import Strings.Byte.

Set Default Proof Using "Type".

(** ** Browser values *)

(** [MediaRecorderStatus], lines 42-50. *)
Inductive MediaRecorderStatus :=
| idle | acquiring_media | ready | recording | paused | stopping | stopped
| failed.

(** The [state] attribute of a browser recorder. *)
Inductive RecordingState := rs_inactive | rs_recording | rs_paused.

Inductive JsError :=
| TypeError (msg : string)
| ReferenceError (msg : string)
| DOMException (name : string)
| Error (msg : string).

(** The error slot is typed [unknown]: it receives either a caught exception
    or the error event itself. *)
Inductive unknown :=
| caught (e : JsError)
| error_event (e : JsError).

(** A [Blob]: its bytes and its [type]; its [size] is the number of bytes. *)
Record Blob := { blob_bytes : list byte; blob_type : string }.

Definition blob_size (b : Blob) : nat := length (blob_bytes b).

(** An optional property of an options bag: missing, present with the value
    [undefined], or present with a value. *)
Inductive Property (A : Type) :=
| missing
| undefined
| present (a : A).
Arguments missing {A}.
Arguments undefined {A}.
Arguments present {A} a.

Inductive EndingType := transparent | native.

Record BlobPropertyBag := {
  bag_type : Property string;
  bag_endings : Property EndingType }.

(** [{ type: t, ...blobOptions }], lines 159-162: an own property of
    [blobOptions] overrides the chunk's type, a missing one leaves it. *)
Definition spread_over_type (t : string) (blobOptions : option BlobPropertyBag)
  : BlobPropertyBag :=
  match blobOptions with
  | None => {| bag_type := present t; bag_endings := missing |}
  | Some o =>
      {| bag_type := match bag_type o with
                     | missing => present t
                     | p => p
                     end;
         bag_endings := bag_endings o |}
  end.

(** [new Blob(parts, bag)]: the parts' bytes in order; [type] defaults to the
    empty string.  (The constructor also lower-cases the type; a chunk's own
    type is already in that form.) *)
Definition new_Blob (parts : list Blob) (bag : BlobPropertyBag) : Blob :=
  {| blob_bytes := concat (map blob_bytes parts);
     blob_type := match bag_type bag with
                  | present t => t
                  | _ => EmptyString
                  end |}.

Inductive TrackKind := audio_track | video_track.

Record MediaStreamTrack := { track_id : nat; track_kind : TrackKind }.

(** [customMediaStream instanceof MediaStream] is a property of the object
    and of the realm the hook runs in; it is a field of the stream. *)
Record MediaStream := {
  stream_id : nat;
  stream_tracks : list MediaStreamTrack;
  instanceof_MediaStream : bool }.

Definition getTracks (s : MediaStream) : list MediaStreamTrack :=
  stream_tracks s.

Definition is_audio (t : MediaStreamTrack) : bool :=
  match track_kind t with audio_track => true | video_track => false end.

Definition getAudioTracks (s : MediaStream) : list MediaStreamTrack :=
  List.filter is_audio (stream_tracks s).

Definition has_track (s : MediaStream) (t : MediaStreamTrack) : bool :=
  existsb (fun u => Nat.eqb (track_id u) (track_id t)) (stream_tracks s).

(** [stream.addTrack(t)]: nothing happens when the track is already there. *)
Definition addTrack (s : MediaStream) (t : MediaStreamTrack) : MediaStream :=
  if has_track s t then s
  else {| stream_id := stream_id s;
          stream_tracks := stream_tracks s ++ [t];
          instanceof_MediaStream := instanceof_MediaStream s |}.

(** [boolean | MediaTrackConstraints | undefined]; of a constraint object only
    [Object.keys] is read. *)
Inductive TrackConstraints :=
| tc_undefined
| tc_bool (b : bool)
| tc_object (keys : list string).

Record MediaStreamConstraints := {
  video : TrackConstraints;
  audio : TrackConstraints }.

Definition truthy (c : TrackConstraints) : bool :=
  match c with
  | tc_undefined => false
  | tc_bool b => b
  | tc_object _ => true
  end.

(** [isObject], lines 344-346, on a value of the constraint type. *)
Definition isObject (o : TrackConstraints) : bool :=
  match o with
  | tc_object _ => true
  | _ => false
  end.

Record MediaRecorderOptions := { mimeType : option string }.

(** The browser's answers.  A missing method is [None]; a call that may throw
    or reject answers with [inl] of the error. *)
Record MediaDevices := {
  getDisplayMedia : option (MediaStreamConstraints -> JsError + MediaStream);
  getUserMedia : MediaStreamConstraints -> JsError + MediaStream;
  getSupportedConstraints : option (gmap string bool) }.

Record MediaRecorderClass := {
  construct : MediaStream -> option MediaRecorderOptions -> option JsError;
  start : MediaStream -> option MediaRecorderOptions -> option nat ->
          option JsError;
  isTypeSupported : string -> bool }.

Record Window := {
  MediaRecorder : option MediaRecorderClass;
  navigator_mediaDevices : option MediaDevices }.

(** ** The hook's arguments and one render of it *)

(** [UseMediaRecorderArgs], lines 3-15.  A callback is opaque: the field says
    whether the caller supplied it. *)
Record UseMediaRecorderArgs := {
  mediaStreamConstraints : MediaStreamConstraints;
  blobOptions : option BlobPropertyBag;
  recordScreen : bool;
  customMediaStream : option MediaStream;
  onStart : bool;
  onStop : bool;
  onDataAvailable : bool;
  onError : bool;
  mediaRecorderOptions : option MediaRecorderOptions;
  windowOverride : option Window }.

Record Render := { args : UseMediaRecorderArgs; render_id : nat }.

Inductive EventType := ev_dataavailable | ev_stop | ev_error.

Definition EventType_eqb (a b : EventType) : bool :=
  match a, b with
  | ev_dataavailable, ev_dataavailable | ev_stop, ev_stop
  | ev_error, ev_error => true
  | _, _ => false
  end.

(** A registered listener: the event type and the closure, i.e. the render that
    declared the handler function. *)
Record Listener := { l_type : EventType; l_closure : Render }.

(** Two registrations are the same listener when type and function object
    agree; the function object is the handler of one particular render. *)
Definition same_listener (a b : Listener) : bool :=
  EventType_eqb (l_type a) (l_type b)
  && Nat.eqb (render_id (l_closure a)) (render_id (l_closure b)).

Record MediaRecorderObj := {
  rec_stream : MediaStream;
  rec_options : option MediaRecorderOptions;
  rec_class : MediaRecorderClass;
  rec_state : RecordingState;
  rec_listeners : list Listener }.

Inductive RecorderEvent :=
| BlobEvent (data : Blob)
| StopEvent
| ErrorEvent (e : JsError).

Definition event_type (ev : RecorderEvent) : EventType :=
  match ev with
  | BlobEvent _ => ev_dataavailable
  | StopEvent => ev_stop
  | ErrorEvent _ => ev_error
  end.

(** ** Outward effects *)

Inductive Effect :=
| SetStatus (s : MediaRecorderStatus)
| CallGetDisplayMedia (c : MediaStreamConstraints)
| CallGetUserMedia (c : MediaStreamConstraints)
| CallNewMediaRecorder (s : MediaStream)
| CallTrackStop (t : MediaStreamTrack)
| CallTrackEnabled (t : MediaStreamTrack) (enabled : bool)
| CallStart (rec : nat) (timeSlice : option nat)
| CallPause (rec : nat)
| CallResume (rec : nat)
| CallStop (rec : nat)
| OnStart
| OnStop (mediaBlob : option Blob) (mimeType : string)
| OnDataAvailable (partialMediaBlob : Blob)
| OnError (e : unknown).

(** ** The hook's store *)

(** [window] is the global object ([None] where [typeof window] is
    "undefined"); the next four fields are the [useRef] cells of lines 64-81,
    the six after them the [useState] cells of lines 83-91.  A recorder is
    referred to by its index in [heap].  [trace] is the history of outward
    effects, oldest first. *)
Record St := {
  window : option Window;
  windowRef : option Window;
  mediaChunks : list Blob;
  mediaStream : option MediaStream;
  mediaRecorder : option nat;
  browserSupportError : option string;
  error : option unknown;
  status : MediaRecorderStatus;
  activeMediaRecorder : option nat;
  mediaBlob : option Blob;
  isAudioMuted : bool;
  heap : list MediaRecorderObj;
  trace : list Effect }.

Definition set_windowRef (v : option Window) (st : St) : St :=
  {| window := window st; windowRef := v; mediaChunks := mediaChunks st;
     mediaStream := mediaStream st; mediaRecorder := mediaRecorder st;
     browserSupportError := browserSupportError st; error := error st;
     status := status st; activeMediaRecorder := activeMediaRecorder st;
     mediaBlob := mediaBlob st; isAudioMuted := isAudioMuted st;
     heap := heap st; trace := trace st |}.

Definition set_mediaChunks (v : list Blob) (st : St) : St :=
  {| window := window st; windowRef := windowRef st; mediaChunks := v;
     mediaStream := mediaStream st; mediaRecorder := mediaRecorder st;
     browserSupportError := browserSupportError st; error := error st;
     status := status st; activeMediaRecorder := activeMediaRecorder st;
     mediaBlob := mediaBlob st; isAudioMuted := isAudioMuted st;
     heap := heap st; trace := trace st |}.

Definition set_mediaStream (v : option MediaStream) (st : St) : St :=
  {| window := window st; windowRef := windowRef st;
     mediaChunks := mediaChunks st;
     mediaStream := v; mediaRecorder := mediaRecorder st;
     browserSupportError := browserSupportError st; error := error st;
     status := status st; activeMediaRecorder := activeMediaRecorder st;
     mediaBlob := mediaBlob st; isAudioMuted := isAudioMuted st;
     heap := heap st; trace := trace st |}.

Definition set_mediaRecorder (v : option nat) (st : St) : St :=
  {| window := window st; windowRef := windowRef st;
     mediaChunks := mediaChunks st;
     mediaStream := mediaStream st; mediaRecorder := v;
     browserSupportError := browserSupportError st; error := error st;
     status := status st; activeMediaRecorder := activeMediaRecorder st;
     mediaBlob := mediaBlob st; isAudioMuted := isAudioMuted st;
     heap := heap st; trace := trace st |}.

Definition set_browserSupportError (v : option string) (st : St) : St :=
  {| window := window st; windowRef := windowRef st;
     mediaChunks := mediaChunks st;
     mediaStream := mediaStream st; mediaRecorder := mediaRecorder st;
     browserSupportError := v; error := error st;
     status := status st; activeMediaRecorder := activeMediaRecorder st;
     mediaBlob := mediaBlob st; isAudioMuted := isAudioMuted st;
     heap := heap st; trace := trace st |}.

Definition set_error (v : option unknown) (st : St) : St :=
  {| window := window st; windowRef := windowRef st;
     mediaChunks := mediaChunks st;
     mediaStream := mediaStream st; mediaRecorder := mediaRecorder st;
     browserSupportError := browserSupportError st; error := v;
     status := status st; activeMediaRecorder := activeMediaRecorder st;
     mediaBlob := mediaBlob st; isAudioMuted := isAudioMuted st;
     heap := heap st; trace := trace st |}.

Definition set_status (v : MediaRecorderStatus) (st : St) : St :=
  {| window := window st; windowRef := windowRef st;
     mediaChunks := mediaChunks st;
     mediaStream := mediaStream st; mediaRecorder := mediaRecorder st;
     browserSupportError := browserSupportError st; error := error st;
     status := v; activeMediaRecorder := activeMediaRecorder st;
     mediaBlob := mediaBlob st; isAudioMuted := isAudioMuted st;
     heap := heap st; trace := trace st |}.

Definition set_activeMediaRecorder (v : option nat) (st : St) : St :=
  {| window := window st; windowRef := windowRef st;
     mediaChunks := mediaChunks st;
     mediaStream := mediaStream st; mediaRecorder := mediaRecorder st;
     browserSupportError := browserSupportError st; error := error st;
     status := status st; activeMediaRecorder := v;
     mediaBlob := mediaBlob st; isAudioMuted := isAudioMuted st;
     heap := heap st; trace := trace st |}.

Definition set_mediaBlob (v : option Blob) (st : St) : St :=
  {| window := window st; windowRef := windowRef st;
     mediaChunks := mediaChunks st;
     mediaStream := mediaStream st; mediaRecorder := mediaRecorder st;
     browserSupportError := browserSupportError st; error := error st;
     status := status st; activeMediaRecorder := activeMediaRecorder st;
     mediaBlob := v; isAudioMuted := isAudioMuted st;
     heap := heap st; trace := trace st |}.

Definition set_isAudioMuted (v : bool) (st : St) : St :=
  {| window := window st; windowRef := windowRef st;
     mediaChunks := mediaChunks st;
     mediaStream := mediaStream st; mediaRecorder := mediaRecorder st;
     browserSupportError := browserSupportError st; error := error st;
     status := status st; activeMediaRecorder := activeMediaRecorder st;
     mediaBlob := mediaBlob st; isAudioMuted := v;
     heap := heap st; trace := trace st |}.

Definition set_heap (v : list MediaRecorderObj) (st : St) : St :=
  {| window := window st; windowRef := windowRef st;
     mediaChunks := mediaChunks st;
     mediaStream := mediaStream st; mediaRecorder := mediaRecorder st;
     browserSupportError := browserSupportError st; error := error st;
     status := status st; activeMediaRecorder := activeMediaRecorder st;
     mediaBlob := mediaBlob st; isAudioMuted := isAudioMuted st;
     heap := v; trace := trace st |}.

Definition set_trace (v : list Effect) (st : St) : St :=
  {| window := window st; windowRef := windowRef st;
     mediaChunks := mediaChunks st;
     mediaStream := mediaStream st; mediaRecorder := mediaRecorder st;
     browserSupportError := browserSupportError st; error := error st;
     status := status st; activeMediaRecorder := activeMediaRecorder st;
     mediaBlob := mediaBlob st; isAudioMuted := isAudioMuted st;
     heap := heap st; trace := v |}.

(** The store of a freshly mounted component, lines 79-91. *)
Definition mount (w : option Window) : St :=
  {| window := w; windowRef := None; mediaChunks := [];
     mediaStream := None; mediaRecorder := None;
     browserSupportError := None; error := None; status := idle;
     activeMediaRecorder := None; mediaBlob := None; isAudioMuted := false;
     heap := []; trace := [] |}.

(** ** The monad: a store threaded through, and JavaScript exceptions *)

Inductive Res (A : Type) :=
| Returned (a : A)
| Thrown (e : JsError).
Arguments Returned {A} a.
Arguments Thrown {A} e.

Definition M (A : Type) : Type := St -> Res A * St.

Definition ret {A} (a : A) : M A := fun st => (Returned a, st).

Definition bind {A B} (m : M A) (k : A -> M B) : M B :=
  fun st =>
    match m st with
    | (Returned a, st') => k a st'
    | (Thrown e, st') => (Thrown e, st')
    end.

Definition throw {A} (e : JsError) : M A := fun st => (Thrown e, st).

(** [try { m } catch (e) { h e }] *)
Definition try_catch {A} (m : M A) (h : JsError -> M A) : M A :=
  fun st =>
    match m st with
    | (Returned a, st') => (Returned a, st')
    | (Thrown e, st') => h e st'
    end.

Definition read {A} (f : St -> A) : M A := fun st => (Returned (f st), st).

Definition write (f : St -> St) : M unit := fun st => (Returned tt, f st).

Declare Scope js_scope.
Delimit Scope js_scope with js.
Notation "x <- m ;; k" := (bind m (fun x => k))
  (at level 100, m at next level, right associativity) : js_scope.
Notation "m ;; k" := (bind m (fun _ => k))
  (at level 100, right associativity) : js_scope.
Local Open Scope js_scope.

(** The store a computation leaves, and its outcome. *)
Definition exec {A} (m : M A) (st : St) : St := snd (m st).
Definition outcome {A} (m : M A) (st : St) : Res A := fst (m st).

(** Truthiness of a value that is an object or [null]/[undefined]. *)
Definition notnull {A} (o : option A) : bool :=
  match o with
  | Some _ => true
  | None => false
  end.

Definition emit (e : Effect) : M unit :=
  write (fun st => set_trace (trace st ++ [e]) st).

Definition when (b : bool) (m : M unit) : M unit :=
  if b then m else ret tt.

Fixpoint forEach {A} (l : list A) (f : A -> M unit) : M unit :=
  match l with
  | [] => ret tt
  | x :: l' => f x ;; forEach l' f
  end.

(** [cb?.(...)]: the call happens when the caller supplied the callback. *)
Definition optional_call (supplied : bool) (call : Effect) : M unit :=
  when supplied (emit call).

(** The [useState] setters.  A status write is also recorded in the trace: the
    writes of one call are batched into the next render, which only sees the
    last one. *)
Definition setBrowserSupportError (v : option string) : M unit :=
  write (set_browserSupportError v).
Definition setError (v : option unknown) : M unit := write (set_error v).
Definition setStatus (v : MediaRecorderStatus) : M unit :=
  write (set_status v) ;; emit (SetStatus v).
Definition setActiveMediaRecorder (v : option nat) : M unit :=
  write (set_activeMediaRecorder v).
Definition setMediaBlob (v : option Blob) : M unit := write (set_mediaBlob v).
Definition setIsAudioMuted (v : bool) : M unit := write (set_isAudioMuted v).

(** ** The browser's recorder objects *)

Definition set_rec_state (v : RecordingState) (r : MediaRecorderObj)
  : MediaRecorderObj :=
  {| rec_stream := rec_stream r; rec_options := rec_options r;
     rec_class := rec_class r; rec_state := v;
     rec_listeners := rec_listeners r |}.

Definition set_rec_listeners (v : list Listener) (r : MediaRecorderObj)
  : MediaRecorderObj :=
  {| rec_stream := rec_stream r; rec_options := rec_options r;
     rec_class := rec_class r; rec_state := rec_state r;
     rec_listeners := v |}.

Definition update_recorder (rec : nat)
    (f : MediaRecorderObj -> MediaRecorderObj) : M unit :=
  write (fun st => set_heap (alter f rec (heap st)) st).

(** [rec.addEventListener(type, handler)]: a listener that is already
    registered is not registered twice. *)
Definition addEventListener (rec : nat) (type : EventType) (handler : Render)
  : M unit :=
  let l := {| l_type := type; l_closure := handler |} in
  update_recorder rec (fun r =>
    if existsb (same_listener l) (rec_listeners r) then r
    else set_rec_listeners (rec_listeners r ++ [l]) r).

(** [rec.removeEventListener(type, handler)] removes the registration of this
    very function object, if there is one. *)
Definition removeEventListener (rec : nat) (type : EventType)
    (handler : Render) : M unit :=
  let l := {| l_type := type; l_closure := handler |} in
  update_recorder rec (fun r =>
    set_rec_listeners
      (List.filter (fun l' => negb (same_listener l l')) (rec_listeners r)) r).

(** [new (w.MediaRecorder)(stream, options)] *)
Definition new_MediaRecorder (w : Window) (stream : MediaStream)
    (options : option MediaRecorderOptions) : M nat :=
  match MediaRecorder w with
  | None => throw (TypeError "undefined is not a constructor")
  | Some cls =>
      emit (CallNewMediaRecorder stream) ;;
      match construct cls stream options with
      | Some e => throw e
      | None =>
          h <- read heap ;;
          write (set_heap (h ++ [{| rec_stream := stream;
                                    rec_options := options;
                                    rec_class := cls;
                                    rec_state := rs_inactive;
                                    rec_listeners := [] |}])) ;;
          ret (length h)
      end
  end.

Definition recorder (rec : nat) : M (option MediaRecorderObj) :=
  read (fun st => heap st !! rec).

(** [rec.start(timeSlice)] *)
Definition rec_start (rec : nat) (timeSlice : option nat) : M unit :=
  emit (CallStart rec timeSlice) ;;
  o <- recorder rec ;;
  match o with
  | None => ret tt
  | Some r =>
      match start (rec_class r) (rec_stream r) (rec_options r) timeSlice with
      | Some e => throw e
      | None => update_recorder rec (set_rec_state rs_recording)
      end
  end.

(** [rec.pause()], [rec.resume()]: an inactive recorder throws. *)
Definition rec_pause (rec : nat) : M unit :=
  emit (CallPause rec) ;;
  o <- recorder rec ;;
  match rec_state <$> o with
  | Some rs_inactive => throw (DOMException "InvalidStateError")
  | _ => update_recorder rec (set_rec_state rs_paused)
  end.

Definition rec_resume (rec : nat) : M unit :=
  emit (CallResume rec) ;;
  o <- recorder rec ;;
  match rec_state <$> o with
  | Some rs_inactive => throw (DOMException "InvalidStateError")
  | _ => update_recorder rec (set_rec_state rs_recording)
  end.

(** [rec.stop()] inactivates the recorder.  The [dataavailable] and [stop]
    events it announces are fired later, from the event loop: see
    [dispatchEvent]. *)
Definition rec_stop (rec : nat) : M unit :=
  emit (CallStop rec) ;;
  update_recorder rec (set_rec_state rs_inactive).

(** ** The hook body, lines 52-342 *)

Definition window_is_not_defined (self : Render) : string :=
  "[use-media-recorder] window is not defined the first (and only) time we retrieve it by either calling windowOverride() or falling back to the default `window`. (Note: windowOverride "
  +:+ match windowOverride (args self) with
      | Some _ => "is"
      | None => "is NOT"
      end
  +:+ " defined)".

(** [getWindow], lines 65-77. *)
Definition getWindow (self : Render) : M Window :=
  cur <- read windowRef ;;
  match cur with
  | Some w => ret w
  | None =>
      global <- read window ;;
      match global with
      | None => throw (Error (window_is_not_defined self))
      | Some w =>
          let w' := match windowOverride (args self) with
                    | Some override => override
                    | None => w
                    end in
          write (set_windowRef (Some w')) ;;
          ret w'
      end
  end.

(** [w.navigator.mediaDevices.<method>]: the property read throws when
    [mediaDevices] is undefined. *)
Definition mediaDevices_of (w : Window) : M MediaDevices :=
  match navigator_mediaDevices w with
  | Some md => ret md
  | None => throw (TypeError "Cannot read properties of undefined")
  end.

Definition await {A} (promise : JsError + A) : M A :=
  match promise with
  | inl e => throw e
  | inr a => ret a
  end.

Definition call_getDisplayMedia (md : MediaDevices)
    (c : MediaStreamConstraints) : M MediaStream :=
  match getDisplayMedia md with
  | None => throw (TypeError "getDisplayMedia is not a function")
  | Some f => emit (CallGetDisplayMedia c) ;; await (f c)
  end.

Definition call_getUserMedia (md : MediaDevices)
    (c : MediaStreamConstraints) : M MediaStream :=
  emit (CallGetUserMedia c) ;; await (getUserMedia md c).

(** The inner [async] arrow of [acquireMediaStream], lines 107-126. *)
Definition requestStream (self : Render) : M MediaStream :=
  let c := mediaStreamConstraints (args self) in
  if recordScreen (args self) then
    w <- getWindow self ;;
    md <- mediaDevices_of w ;;
    stream <- call_getDisplayMedia md c ;;
    if truthy (audio c) then
      w <- getWindow self ;;
      md <- mediaDevices_of w ;;
      audioStream <- call_getUserMedia md
                       {| video := tc_undefined; audio := audio c |} ;;
      ret (fold_left addTrack (getAudioTracks audioStream) stream)
    else ret stream
  else
    w <- getWindow self ;;
    md <- mediaDevices_of w ;;
    call_getUserMedia md c.

(** [acquireMediaStream], lines 93-137. *)
Definition acquireMediaStream (self : Render) : M (option MediaStream) :=
  e <- read error ;;
  when (notnull e) (setError None) ;;
  setStatus acquiring_media ;;
  match customMediaStream (args self) with
  | Some custom =>
      if instanceof_MediaStream custom then
        write (set_mediaStream (Some custom)) ;;
        setStatus ready ;;
        ret (Some custom)
      else
        try_catch
          (stream <- requestStream self ;;
           write (set_mediaStream (Some stream)) ;;
           setStatus ready ;;
           ret (Some stream))
          (fun err =>
             setError (Some (caught err)) ;;
             setStatus failed ;;
             ret None)
  | None =>
      try_catch
        (stream <- requestStream self ;;
         write (set_mediaStream (Some stream)) ;;
         setStatus ready ;;
         ret (Some stream))
        (fun err =>
           setError (Some (caught err)) ;;
           setStatus failed ;;
           ret None)
  end.

(** [releaseMediaStream], lines 139-145. *)
Definition releaseMediaStream (self : Render) : M unit :=
  cur <- read mediaStream ;;
  match cur with
  | Some s =>
      forEach (getTracks s) (fun track => emit (CallTrackStop track)) ;;
      write (set_mediaStream None) ;;
      setStatus idle
  | None => ret tt
  end.

(** [handleDataAvailable], lines 147-152. *)
Definition handleDataAvailable (self : Render) (data : Blob) : M unit :=
  when (negb (Nat.eqb (blob_size data) 0))
       (write (fun st => set_mediaChunks (mediaChunks st ++ [data]) st)) ;;
  optional_call (onDataAvailable (args self)) (OnDataAvailable data).

(** [hasLengthAtLeast], lines 379-384. *)
Definition hasLengthAtLeast {A} (arr : list A) (len : nat) : bool :=
  Nat.leb len (length arr).

(** The immediately invoked function of [handleStop], lines 155-167. *)
Definition assemble (self : Render) (chunks : list Blob)
  : option Blob * string :=
  if hasLengthAtLeast chunks 1 then
    match chunks with
    | sampleChunk :: _ =>
        let blobPropertyBag :=
          spread_over_type (blob_type sampleChunk) (blobOptions (args self)) in
        (Some (new_Blob chunks blobPropertyBag), blob_type sampleChunk)
    | [] => (None, EmptyString)
    end
  else (None, EmptyString).

(** [handleStop], lines 154-172. *)
Definition handleStop (self : Render) : M unit :=
  chunks <- read mediaChunks ;;
  let '(mediaBlob, mimeType) := assemble self chunks in
  setStatus stopped ;;
  setMediaBlob mediaBlob ;;
  optional_call (onStop (args self)) (OnStop mediaBlob mimeType).

(** [handleError], lines 174-178. *)
Definition handleError (self : Render) (e : JsError) : M unit :=
  setError (Some (error_event e)) ;;
  setStatus idle ;;
  optional_call (onError (args self)) (OnError (error_event e)).

(** [handleTryCatchStart], lines 180-184. *)
Definition handleTryCatchStart (self : Render) (error : JsError) : M unit :=
  setError (Some (caught error)) ;;
  setStatus idle ;;
  optional_call (onError (args self)) (OnError (caught error)).

(** [startRecording], lines 186-212. *)
Definition startRecording (self : Render) (timeSlice : option nat) : M unit :=
  e <- read error ;;
  when (notnull e) (setError None) ;;
  cur <- read mediaStream ;;
  stream <- match cur with
            | Some s => ret (Some s)
            | None => acquireMediaStream self
            end ;;
  write (set_mediaChunks []) ;;
  match stream with
  | Some s =>
      w <- getWindow self ;;
      rec <- new_MediaRecorder w s (mediaRecorderOptions (args self)) ;;
      write (set_mediaRecorder (Some rec)) ;;
      addEventListener rec ev_dataavailable self ;;
      addEventListener rec ev_stop self ;;
      addEventListener rec ev_error self ;;
      setActiveMediaRecorder (Some rec) ;;
      try_catch
        (rec_start rec timeSlice ;;
         setStatus recording ;;
         optional_call (onStart (args self)) OnStart)
        (handleTryCatchStart self)
  | None => ret tt
  end.

(** [muteAudio], lines 214-219. *)
Definition muteAudio (self : Render) (mute : bool) : M unit :=
  cur <- read mediaStream ;;
  match cur with
  | Some s =>
      forEach (getAudioTracks s)
              (fun t => emit (CallTrackEnabled t (negb mute)))
  | None => ret tt
  end ;;
  setIsAudioMuted mute.

Definition is_state (rs : RecordingState) (o : option MediaRecorderObj)
  : bool :=
  match rec_state <$> o, rs with
  | Some rs_inactive, rs_inactive
  | Some rs_recording, rs_recording
  | Some rs_paused, rs_paused => true
  | _, _ => false
  end.

(** [pauseRecording], lines 221-227. *)
Definition pauseRecording (self : Render) : M unit :=
  cur <- read mediaRecorder ;;
  match cur with
  | Some rec =>
      o <- recorder rec ;;
      if is_state rs_recording o then
        rec_pause rec ;;
        setStatus paused
      else ret tt
  | None => ret tt
  end.

(** [resumeRecording], lines 229-235. *)
Definition resumeRecording (self : Render) : M unit :=
  cur <- read mediaRecorder ;;
  match cur with
  | Some rec =>
      o <- recorder rec ;;
      if is_state rs_paused o then
        rec_resume rec ;;
        setStatus recording
      else ret tt
  | None => ret tt
  end.

(** [stopRecording], lines 237-255. *)
Definition stopRecording (self : Render) : M unit :=
  cur <- read mediaRecorder ;;
  match cur with
  | Some rec =>
      setStatus stopping ;;
      rec_stop rec ;;
      removeEventListener rec ev_dataavailable self ;;
      removeEventListener rec ev_stop self ;;
      removeEventListener rec ev_error self ;;
      write (set_mediaRecorder None) ;;
      match customMediaStream (args self) with
      | None => releaseMediaStream self
      | Some _ => ret tt
      end
  | None => ret tt
  end.

(** [clearMediaBlob], line 329. *)
Definition clearMediaBlob (self : Render) : M unit := setMediaBlob None.

(** ** The capability check *)

(** [ensureConstraintsSupported], lines 348-365.  [supported[name]] is read
    for truthiness: a missing entry and an entry [false] both count as
    unsupported. *)
Definition constraintIsSupported (supported : gmap string bool)
    (constraintName : string) : bool :=
  default false (supported !! constraintName).

Definition ensureConstraintsSupported (supported : gmap string bool)
    (requestedConstraints : list string) : option string :=
  let unsupported :=
    List.filter (fun constraintName =>
                   negb (constraintIsSupported supported constraintName))
                requestedConstraints in
  if negb (Nat.eqb (length unsupported) 0) then
    Some ("The following media constraints ["
          +:+ String.concat "," unsupported
          +:+ "] are not supported on this browser.")
  else None.

(** Truthiness of a [string | null | undefined]. *)
Definition nonempty (s : option string) : bool :=
  match s with
  | Some (String _ _) => true
  | _ => false
  end.

(** One [if (isObject(c)) { const error = ensureConstraintsSupported(..., c);
    if (error) ... }] block, lines 286-306: the message to record, if any. *)
Definition constraints_error (supported : gmap string bool)
    (c : TrackConstraints) : option string :=
  if isObject c then
    match c with
    | tc_object keys =>
        let error := ensureConstraintsSupported supported keys in
        if nonempty error then error else None
    | _ => None
    end
  else None.

(** The static call [MediaRecorder.isTypeSupported(mimeType)], line 310: it
    goes through the global [MediaRecorder], not through [getWindow()]. *)
Definition global_isTypeSupported (mimeType : string) : M bool :=
  global <- read window ;;
  match global ≫= MediaRecorder with
  | Some cls => ret (isTypeSupported cls mimeType)
  | None => throw (ReferenceError "MediaRecorder is not defined")
  end.

(** The effect of lines 257-317; it runs after the first render and again
    whenever one of its dependencies changes. *)
Definition supportCheck (self : Render) : M unit :=
  w <- getWindow self ;;
  match MediaRecorder w with
  | None =>
      setBrowserSupportError (Some
        "MediaRecorder is not supported in this browser. Please ensure that you are running the latest version of chrome/firefox/edge.")
  | Some _ =>
      noScreenCapture <-
        (if recordScreen (args self) then
           w <- getWindow self ;;
           md <- mediaDevices_of w ;;
           ret (negb (notnull (getDisplayMedia md)))
         else ret false) ;;
      if noScreenCapture then
        setBrowserSupportError (Some
          "This browser does not support screen capturing.")
      else
        w <- getWindow self ;;
        match navigator_mediaDevices w with
        | None =>
            setBrowserSupportError (Some
              "The MediaDevices interface is not available on this browser.")
        | Some md =>
            match getSupportedConstraints md with
            | None =>
                setBrowserSupportError (Some
                  "The MediaDevices.getSupportedConstraints() method is not available on this browser.")
            | Some supported =>
                let c := mediaStreamConstraints (args self) in
                match constraints_error supported (video c) with
                | Some error => setBrowserSupportError (Some error)
                | None =>
                    match constraints_error supported (audio c) with
                    | Some error => setBrowserSupportError (Some error)
                    | None =>
                        let mimeType :=
                          mediaRecorderOptions (args self) ≫= mimeType in
                        if nonempty mimeType then
                          ok <- global_isTypeSupported
                                         (default EmptyString mimeType) ;;
                          if negb ok then
                            setBrowserSupportError (Some
                              ("The specified MIME type ["
                               +:+ default EmptyString mimeType
                               +:+ "] supplied to MediaRecorder is not supported by this browser."))
                          else ret tt
                        else ret tt
                    end
                end
            end
        end
  end.

(** ** Event delivery *)

(** The handler a render registered for an event type. *)
Definition handleEvent (self : Render) (ev : RecorderEvent) : M unit :=
  match ev with
  | BlobEvent data => handleDataAvailable self data
  | StopEvent => handleStop self
  | ErrorEvent e => handleError self e
  end.

(** The browser fires [ev] at recorder [rec]: every listener registered for
    the event's type runs, in registration order. *)
Definition dispatchEvent (rec : nat) (ev : RecorderEvent) : M unit :=
  o <- recorder rec ;;
  match o with
  | Some r =>
      forEach
        (List.filter (fun l => EventType_eqb (l_type l) (event_type ev))
                     (rec_listeners r))
        (fun l => handleEvent (l_closure l) ev)
  | None => ret tt
  end.

(** ** The calls a component and the browser can make, as one machine *)

Inductive Call :=
| call_acquireMediaStream
| call_releaseMediaStream
| call_startRecording (timeSlice : option nat)
| call_pauseRecording
| call_resumeRecording
| call_stopRecording
| call_muteAudio (mute : bool)
| call_clearMediaBlob
| call_supportCheck
| call_event (rec : nat) (ev : RecorderEvent).

Definition is_startRecording (c : Call) : bool :=
  match c with
  | call_startRecording _ => true
  | _ => false
  end.

(** One call, made through render [self]; an exception ends the call and
    leaves the store as it was at the throw. *)
Definition step (self : Render) (c : Call) (st : St) : St :=
  match c with
  | call_acquireMediaStream => exec (acquireMediaStream self) st
  | call_releaseMediaStream => exec (releaseMediaStream self) st
  | call_startRecording timeSlice => exec (startRecording self timeSlice) st
  | call_pauseRecording => exec (pauseRecording self) st
  | call_resumeRecording => exec (resumeRecording self) st
  | call_stopRecording => exec (stopRecording self) st
  | call_muteAudio mute => exec (muteAudio self mute) st
  | call_clearMediaBlob => exec (clearMediaBlob self) st
  | call_supportCheck => exec (supportCheck self) st
  | call_event rec ev => exec (dispatchEvent rec ev) st
  end.

(** A run: each call comes with the render it is made through. *)
Definition run (calls : list (Render * Call)) (st : St) : St :=
  fold_left (fun s rc => step (fst rc) (snd rc) s) calls st.

(** The effects a call added to the trace. *)
Definition added (st st' : St) : list Effect :=
  drop (length (trace st)) (trace st').

Definition is_callback (e : Effect) : bool :=
  match e with
  | OnStart | OnStop _ _ | OnDataAvailable _ | OnError _ => true
  | _ => false
  end.


(** ** Notions the statements use *)



(** What [stopRecording] does to the recorder object it found: [stop()], then
    the three [removeEventListener] calls with this render's handlers. *)
Definition stopped_recorder (self : Render) (r : MediaRecorderObj)
  : MediaRecorderObj :=
  let remove type r :=
    set_rec_listeners
      (List.filter
         (fun l' => negb (same_listener
                            {| l_type := type; l_closure := self |} l'))
         (rec_listeners r)) r in
  remove ev_error
    (remove ev_stop (remove ev_dataavailable (set_rec_state rs_inactive r))).

(** The store [stopRecording] reaches before it looks at [customMediaStream],
    lines 240-249. *)
Definition stop_requested (self : Render) (rec : nat) (st : St) : St :=
  set_mediaRecorder None
    (set_heap (alter (stopped_recorder self) rec (heap st))
       (set_trace (trace st ++ [SetStatus stopping; CallStop rec])
          (set_status stopping st))).

(** The store in which [acquireMediaStream] asks the browser for a stream:
    error slot cleared, status acquiring, lines 94-98. *)
Definition before_request (st : St) : St :=
  set_trace (trace st ++ [SetStatus acquiring_media])
    (set_status acquiring_media (set_error None st)).

(** The caller's stream, when [acquireMediaStream] takes it, line 100. *)
Definition usable_custom (self : Render) : option MediaStream :=
  match customMediaStream (args self) with
  | Some custom => if instanceof_MediaStream custom then Some custom else None
  | None => None
  end.

(** The browser requests one acquisition can make, in order. *)
Definition request_plan (self : Render) : list Effect :=
  let c := mediaStreamConstraints (args self) in
  if recordScreen (args self) then
    CallGetDisplayMedia c ::
      (if truthy (audio c)
       then [CallGetUserMedia {| video := tc_undefined; audio := audio c |}]
       else [])
  else [CallGetUserMedia c].

(** [startRecording] in two halves: lines 187-192 yield the stream to record,
    lines 195-210 are the body of [if (stream)]. *)
Definition obtain_stream (self : Render) : M (option MediaStream) :=
  e <- read error ;;
  when (notnull e) (setError None) ;;
  cur <- read mediaStream ;;
  stream <- match cur with
            | Some s => ret (Some s)
            | None => acquireMediaStream self
            end ;;
  write (set_mediaChunks []) ;;
  ret stream.

Definition record (self : Render) (timeSlice : option nat) (s : MediaStream)
  : M unit :=
  w <- getWindow self ;;
  rec <- new_MediaRecorder w s (mediaRecorderOptions (args self)) ;;
  write (set_mediaRecorder (Some rec)) ;;
  addEventListener rec ev_dataavailable self ;;
  addEventListener rec ev_stop self ;;
  addEventListener rec ev_error self ;;
  setActiveMediaRecorder (Some rec) ;;
  try_catch
    (rec_start rec timeSlice ;;
     setStatus recording ;;
     optional_call (onStart (args self)) OnStart)
    (handleTryCatchStart self).

(** The recorder object [startRecording] leaves in the heap before it calls
    [start]: inactive, with this render's three handlers registered. *)
Definition fresh_recorder (self : Render) (s : MediaStream)
    (cls : MediaRecorderClass) : MediaRecorderObj :=
  {| rec_stream := s;
     rec_options := mediaRecorderOptions (args self);
     rec_class := cls;
     rec_state := rs_inactive;
     rec_listeners :=
       [ {| l_type := ev_dataavailable; l_closure := self |};
         {| l_type := ev_stop; l_closure := self |};
         {| l_type := ev_error; l_closure := self |} ] |}.

(** The store in which [start] is called. *)
Definition before_start (self : Render) (timeSlice : option nat)
    (s : MediaStream) (cls : MediaRecorderClass) (st1 : St) : St :=
  set_trace (trace st1 ++ [CallNewMediaRecorder s;
                           CallStart (length (heap st1)) timeSlice])
    (set_activeMediaRecorder (Some (length (heap st1)))
       (set_mediaRecorder (Some (length (heap st1)))
          (set_heap (heap st1 ++ [fresh_recorder self s cls]) st1))).

(** The chunks a sequence of data notifications leaves in the collection. *)
Definition collected (datas : list Blob) : list Blob :=
  List.filter (fun d => negb (Nat.eqb (blob_size d) 0)) datas.


(** ** A concrete browser and component, for the examples *)

Module Fixture.

Definition mic : MediaStreamTrack :=
  {| track_id := 1; track_kind := audio_track |}.
Definition camera : MediaStreamTrack :=
  {| track_id := 2; track_kind := video_track |}.
Definition screen : MediaStreamTrack :=
  {| track_id := 3; track_kind := video_track |}.

Definition user_stream : MediaStream :=
  {| stream_id := 1; stream_tracks := [mic; camera];
     instanceof_MediaStream := true |}.
Definition display_stream : MediaStream :=
  {| stream_id := 2; stream_tracks := [screen];
     instanceof_MediaStream := true |}.
Definition own_stream : MediaStream :=
  {| stream_id := 7; stream_tracks := [mic];
     instanceof_MediaStream := true |}.

Definition webm (bytes : list byte) : Blob :=
  {| blob_bytes := bytes; blob_type := "audio/webm" |}.
Definition chunk1 : Blob := webm [x01; x02].
Definition chunk2 : Blob := webm [x03].
Definition empty_chunk : Blob := webm [].

Definition NotAllowedError : JsError := DOMException "NotAllowedError".
Definition NotSupportedError : JsError := DOMException "NotSupportedError".

Definition recorder_class : MediaRecorderClass :=
  {| construct := fun _ _ => None;
     start := fun _ _ _ => None;
     isTypeSupported := fun t => String.eqb t "audio/webm" |}.


(** A recorder class whose [start] throws. *)
Definition failing_class : MediaRecorderClass :=
  {| construct := fun _ _ => None;
     start := fun _ _ _ => Some NotSupportedError;
     isTypeSupported := fun t => String.eqb t "audio/webm" |}.

Definition supported : gmap string bool :=
  {[ "width" := true; "height" := true; "deviceId" := true ]}.

Definition devices : MediaDevices :=
  {| getDisplayMedia := Some (fun _ => inr display_stream);
     getUserMedia := fun _ => inr user_stream;
     getSupportedConstraints := Some supported |}.

(** The user denies the permission prompt. *)
Definition denying_devices : MediaDevices :=
  {| getDisplayMedia := Some (fun _ => inl NotAllowedError);
     getUserMedia := fun _ => inl NotAllowedError;
     getSupportedConstraints := Some supported |}.

Definition browser : Window :=
  {| MediaRecorder := Some recorder_class;
     navigator_mediaDevices := Some devices |}.
Definition denying_browser : Window :=
  {| MediaRecorder := Some recorder_class;
     navigator_mediaDevices := Some denying_devices |}.
Definition failing_browser : Window :=
  {| MediaRecorder := Some failing_class;
     navigator_mediaDevices := Some devices |}.
(** A page served over plain http: [navigator.mediaDevices] is undefined. *)
Definition insecure_browser : Window :=
  {| MediaRecorder := Some recorder_class;
     navigator_mediaDevices := None |}.

Definition props : UseMediaRecorderArgs :=
  {| mediaStreamConstraints :=
       {| video := tc_bool false; audio := tc_bool true |};
     blobOptions := None;
     recordScreen := false;
     customMediaStream := None;
     onStart := true; onStop := true; onDataAvailable := true;
     onError := true;
     mediaRecorderOptions := None;
     windowOverride := None |}.

Definition with_custom (s : MediaStream) : UseMediaRecorderArgs :=
  {| mediaStreamConstraints := mediaStreamConstraints props;
     blobOptions := None;
     recordScreen := false;
     customMediaStream := Some s;
     onStart := true; onStop := true; onDataAvailable := true;
     onError := true;
     mediaRecorderOptions := None;
     windowOverride := None |}.

Definition with_check (c : MediaStreamConstraints) (screen : bool)
    (mime : option string) : UseMediaRecorderArgs :=
  {| mediaStreamConstraints := c;
     blobOptions := None;
     recordScreen := screen;
     customMediaStream := None;
     onStart := true; onStop := true; onDataAvailable := true;
     onError := true;
     mediaRecorderOptions := Some {| mimeType := mime |};
     windowOverride := None |}.

Definition render (n : nat) : Render := {| args := props; render_id := n |}.
Definition custom_render (n : nat) : Render :=
  {| args := with_custom own_stream; render_id := n |}.

(** The store after [startRecording] through the first render. *)
Definition started : St :=
  exec (startRecording (render 0) None) (mount (Some browser)).
(** Two chunks and an empty one have arrived. *)
Definition recorded : St :=
  run [(render 0, call_event 0 (BlobEvent chunk1));
       (render 0, call_event 0 (BlobEvent empty_chunk));
       (render 0, call_event 0 (BlobEvent chunk2))] started.

(** A screen recording with a MIME type the recorder class does not support,
    on a page without [navigator.mediaDevices]. *)
Definition screen_render (screen : bool) : Render :=
  {| args := with_check
               {| video := tc_bool true; audio := tc_bool true |}
               screen (Some "video/x-matroska");
     render_id := 0 |}.

End Fixture.

(** ** Notions of the further properties *)

(** The [liveStream] getter, lines 332-335: a new stream object over the
    tracks of the held stream, or null. *)
Definition liveStream (st : St) : option (list MediaStreamTrack) :=
  getTracks <$> mediaStream st.

(** The audio tracks [muteAudio] reaches: those of the held stream. *)
Definition held_audio_tracks (st : St) : list MediaStreamTrack :=
  match mediaStream st with
  | Some s => getAudioTracks s
  | None => []
  end.

(** The keys [ensureConstraintsSupported] reports, in request order. *)
Definition unsupported_keys (supported : gmap string bool)
    (requestedConstraints : list string) : list string :=
  List.filter (fun k => negb (constraintIsSupported supported k))
              requestedConstraints.

(** A configuration the browser can serve, as the capability check reads it:
    the recorder class exists, screen capture exists when it is asked for,
    every key of a constraint object is supported, and so is a requested MIME
    type. *)
Definition supported_request (self : Render) (st : St) (w : Window)
    (md : MediaDevices) : Prop :=
  let c := mediaStreamConstraints (args self) in
  is_Some (MediaRecorder w)
  /\ (recordScreen (args self) = true -> is_Some (getDisplayMedia md))
  /\ (exists supported,
        getSupportedConstraints md = Some supported
        /\ (forall keys k,
              video c = tc_object keys \/ audio c = tc_object keys ->
              In k keys -> supported !! k = Some true))
  /\ (forall m, mediaRecorderOptions (args self) ≫= mimeType = Some m ->
        m <> EmptyString ->
        exists cls, window st ≫= MediaRecorder = Some cls
                    /\ isTypeSupported cls m = true).

(** The outward effects each call may have: which status it may write, which
    browser methods it may call, which of the caller's callbacks it may run. *)
Definition footprint (c : Call) (e : Effect) : bool :=
  match c, e with
  | call_acquireMediaStream,
    (SetStatus (acquiring_media | ready | failed)
    | CallGetDisplayMedia _ | CallGetUserMedia _) => true
  | call_releaseMediaStream, (CallTrackStop _ | SetStatus idle) => true
  | call_startRecording _,
    (SetStatus (acquiring_media | ready | failed | recording | idle)
    | CallGetDisplayMedia _ | CallGetUserMedia _
    | CallNewMediaRecorder _ | CallStart _ _ | OnStart | OnError _) => true
  | call_pauseRecording, (CallPause _ | SetStatus paused) => true
  | call_resumeRecording, (CallResume _ | SetStatus recording) => true
  | call_stopRecording,
    (SetStatus (stopping | idle) | CallStop _ | CallTrackStop _) => true
  | call_muteAudio _, CallTrackEnabled _ _ => true
  | call_event _ (BlobEvent _), OnDataAvailable _ => true
  | call_event _ StopEvent, (SetStatus stopped | OnStop _ _) => true
  | call_event _ (ErrorEvent _), (SetStatus idle | OnError _) => true
  | _, _ => false
  end.

(** A computation that only appends effects of kind [K] to the trace. *)
Definition emits_only (K : Effect -> bool) {A} (m : M A) : Prop :=
  forall st, exists l,
    trace (m st).2 = trace st ++ l /\ Forall (fun e => K e = true) l.

(** A computation whose final store is [R]-related to its initial store. *)
Definition keeps (R : St -> St -> Prop) {A} (m : M A) : Prop :=
  forall st, R st (m st).2.

(** The cells of the store a component can observe. *)
Inductive Cell :=
| cell_mediaChunks | cell_mediaStream | cell_mediaRecorder
| cell_browserSupportError | cell_error | cell_activeMediaRecorder
| cell_mediaBlob | cell_isAudioMuted.

Definition same_cell (x : Cell) (st st' : St) : Prop :=
  match x with
  | cell_mediaChunks => mediaChunks st' = mediaChunks st
  | cell_mediaStream => mediaStream st' = mediaStream st
  | cell_mediaRecorder => mediaRecorder st' = mediaRecorder st
  | cell_browserSupportError =>
      browserSupportError st' = browserSupportError st
  | cell_error => error st' = error st
  | cell_activeMediaRecorder =>
      activeMediaRecorder st' = activeMediaRecorder st
  | cell_mediaBlob => mediaBlob st' = mediaBlob st
  | cell_isAudioMuted => isAudioMuted st' = isAudioMuted st
  end.

(** The cells each call may write. *)
Definition may_change (c : Call) (x : Cell) : bool :=
  match c, x with
  | call_acquireMediaStream, (cell_mediaStream | cell_error) => true
  | call_releaseMediaStream, cell_mediaStream => true
  | call_startRecording _,
    (cell_mediaChunks | cell_mediaStream | cell_mediaRecorder | cell_error
    | cell_activeMediaRecorder) => true
  | call_stopRecording, (cell_mediaRecorder | cell_mediaStream) => true
  | call_muteAudio _, cell_isAudioMuted => true
  | call_clearMediaBlob, cell_mediaBlob => true
  | call_supportCheck, cell_browserSupportError => true
  | call_event _ (BlobEvent _), cell_mediaChunks => true
  | call_event _ StopEvent, cell_mediaBlob => true
  | call_event _ (ErrorEvent _), cell_error => true
  | _, _ => false
  end.

Definition is_muteAudio (c : Call) : bool :=
  match c with
  | call_muteAudio _ => true
  | _ => false
  end.

Definition is_track_enabled (e : Effect) : bool :=
  match e with
  | CallTrackEnabled _ _ => true
  | _ => false
  end.

(** Effects that end or suspend something the browser holds. *)
Definition is_stopping (e : Effect) : bool :=
  match e with
  | CallStop _ | CallPause _ | CallTrackStop _ => true
  | _ => false
  end.

(** Effects of getting a stream: the requests and the three status writes of
    [acquireMediaStream]. *)
Definition is_acquisition (e : Effect) : bool :=
  match e with
  | CallGetDisplayMedia _ | CallGetUserMedia _
  | SetStatus (acquiring_media | ready | failed) => true
  | _ => false
  end.

(** Three relations between an earlier and a later store. *)
Definition support_error_stays (st st' : St) : Prop :=
  is_Some (browserSupportError st) -> is_Some (browserSupportError st').

Definition chunks_grow (st st' : St) : Prop :=
  mediaChunks st `prefix_of` mediaChunks st'.

Definition window_stays (st st' : St) : Prop :=
  forall w, windowRef st = Some w -> windowRef st' = Some w.

(** ** Further scenarios, for the examples *)

Module Scenario.

(** A screen recording with the microphone. *)
Definition screen_props : UseMediaRecorderArgs :=
  {| mediaStreamConstraints :=
       {| video := tc_bool true; audio := tc_bool true |};
     blobOptions := None;
     recordScreen := true;
     customMediaStream := None;
     onStart := true; onStop := true; onDataAvailable := true;
     onError := true;
     mediaRecorderOptions := None;
     windowOverride := None |}.

Definition screen_with_audio : Render :=
  {| args := screen_props; render_id := 0 |}.

(** The user shares the screen and then denies the microphone. *)
Definition microphone_denied : MediaDevices :=
  {| getDisplayMedia := Some (fun _ => inr Fixture.display_stream);
     getUserMedia := fun _ => inl Fixture.NotAllowedError;
     getSupportedConstraints := Some Fixture.supported |}.

Definition microphone_denied_browser : Window :=
  {| MediaRecorder := Some Fixture.recorder_class;
     navigator_mediaDevices := Some microphone_denied |}.

(** A configuration the fixture browser serves. *)
Definition served_render : Render :=
  {| args := Fixture.with_check
               {| video := tc_object ["width"; "height"];
                  audio := tc_bool true |}
               false (Some "audio/webm");
     render_id := 0 |}.

(** The recorder [Fixture.started] holds. *)
Definition running : MediaRecorderObj :=
  set_rec_state rs_recording
    (fresh_recorder (Fixture.render 0) Fixture.user_stream
       Fixture.recorder_class).

(** A stream has been acquired through the first render; a later render
    supplies a stream of the caller's. *)
Definition acquired : St :=
  exec (acquireMediaStream (Fixture.render 0)) (mount (Some Fixture.browser)).

End Scenario.

(** ** Proof support *)

Ltac unfold_monad :=
  unfold exec, outcome, setStatus, setError, setMediaBlob,
    setBrowserSupportError, setActiveMediaRecorder, setIsAudioMuted,
    optional_call, when, emit, update_recorder, recorder,
    bind, ret, read, write, throw, try_catch in *.

Ltac run_monad := unfold_monad; cbn.

Ltac unfold_setters :=
  unfold set_windowRef, set_mediaChunks, set_mediaStream, set_mediaRecorder,
    set_browserSupportError, set_error, set_status, set_activeMediaRecorder,
    set_mediaBlob, set_isAudioMuted, set_heap, set_trace in *.

Lemma bind_run {A B} (m : M A) (k : A -> M B) st a st' :
  m st = (Returned a, st') -> bind m k st = k a st'.
Proof. unfold bind. by intros ->. Qed.

Lemma added_app st st' l : trace st' = trace st ++ l -> added st st' = l.
Proof. unfold added. intros ->. by rewrite drop_app_length. Qed.

(** Emitting a list of effects one by one appends the list. *)
Lemma forEach_emit {A} (f : A -> Effect) (l : list A) st :
  forEach l (fun x => emit (f x)) st
  = (Returned tt, set_trace (trace st ++ map f l) st).
Proof.
  revert st. induction l as [|x l IH]; intros st; cbn.
  - unfold ret. rewrite app_nil_r. by destruct st.
  - unfold bind, emit, write in *. cbn. rewrite IH. cbn.
    by rewrite <- app_assoc.
Qed.

(** ** Stopping before anything was started *)

Lemma stopRecording_None self st :
  mediaRecorder st = None -> stopRecording self st = (Returned tt, st).
Proof. intros H. unfold stopRecording, bind, read. by rewrite H. Qed.

(** C6. [stopRecording] with no recorder handle held returns at once and leaves
    the whole store as it was: status, error slot, [mediaBlob], the collected
    chunks, the stream handle, and the trace, so no callback ran. *)
Theorem stopRecording_without_handle (self : Render) (st : St) :
  mediaRecorder st = None ->
  stopRecording self st = (Returned tt, st).
Proof. apply stopRecording_None. Qed.

Lemma stopRecording_without_handle_at_mount :
  stopRecording (Fixture.render 0) (mount (Some Fixture.browser))
  = (Returned tt, mount (Some Fixture.browser)).
Proof. apply stopRecording_without_handle. reflexivity. Defined.

(** ** Data notifications *)

(** C10. On a data notification the chunk joins the collected chunks exactly
    when its size is not zero, and the caller's [onDataAvailable], when there
    is one, is called with the chunk whatever its size. *)
Theorem handleDataAvailable_spec (self : Render) (data : Blob) (st : St) :
  let st' := exec (handleDataAvailable self data) st in
  outcome (handleDataAvailable self data) st = Returned tt
  /\ mediaChunks st' =
       (if Nat.eqb (blob_size data) 0 then mediaChunks st
        else mediaChunks st ++ [data])
  /\ trace st' =
       trace st ++ (if onDataAvailable (args self)
                    then [OnDataAvailable data] else []).
Proof.
  unfold handleDataAvailable. run_monad.
  destruct (Nat.eqb (blob_size data) 0), (onDataAvailable (args self));
    cbn; rewrite ?app_nil_r; done.
Qed.

(** ** The stop notification *)

Lemma assemble_nil self : assemble self [] = (None, EmptyString).
Proof. reflexivity. Qed.


Lemma handleStop_run self st :
  handleStop self st
  = (Returned tt,
     set_trace
       (trace st ++ SetStatus stopped ::
          (if onStop (args self)
           then [OnStop (assemble self (mediaChunks st)).1
                        (assemble self (mediaChunks st)).2]
           else []))
       (set_mediaBlob (assemble self (mediaChunks st)).1
          (set_status stopped st))).
Proof.
  unfold handleStop. unfold bind at 1. unfold read.
  destruct (assemble self (mediaChunks st)) as [b m].
  run_monad. destruct (onStop (args self)); cbn.
  - by rewrite <- app_assoc.
  - done.
Qed.

(** C3. With no chunk collected, the stop notification produces no artifact:
    [mediaBlob] becomes null and [onStop], when supplied, receives a null
    artifact and the empty MIME type. *)
Theorem handleStop_no_chunks (self : Render) (st : St) :
  mediaChunks st = [] ->
  let st' := exec (handleStop self) st in
  mediaBlob st' = None
  /\ status st' = stopped
  /\ trace st' =
       trace st ++ SetStatus stopped ::
         (if onStop (args self) then [OnStop None EmptyString] else []).
Proof.
  intros H. unfold exec. rewrite handleStop_run, H, assemble_nil. by cbn.
Qed.

Lemma handleStop_no_chunks_started :
  let st' := exec (handleStop (Fixture.render 1)) Fixture.started in
  mediaBlob st' = None
  /\ status st' = stopped
  /\ trace st' =
       trace Fixture.started ++ [SetStatus stopped; OnStop None EmptyString].
Proof. apply (handleStop_no_chunks (Fixture.render 1)). reflexivity. Defined.



(** ** Releasing the stream and stopping a recording *)

Lemma releaseMediaStream_run self st :
  releaseMediaStream self st
  = (Returned tt,
     match mediaStream st with
     | Some s =>
         set_trace
           (trace st ++ map CallTrackStop (getTracks s) ++ [SetStatus idle])
           (set_status idle (set_mediaStream None st))
     | None => st
     end).
Proof.
  unfold releaseMediaStream. unfold bind at 1. unfold read.
  destruct (mediaStream st) as [s|] eqn:E; [|done].
  unfold bind at 1. rewrite forEach_emit.
  run_monad. by rewrite <- app_assoc.
Qed.

Lemma alter_alter {A} (f g : A -> A) (i : nat) (l : list A) :
  alter f i (alter g i l) = alter (fun x => f (g x)) i l.
Proof. by rewrite list_alter_alter_eq. Qed.

Lemma stopRecording_run self st rec :
  mediaRecorder st = Some rec ->
  stopRecording self st
  = match customMediaStream (args self) with
    | None => releaseMediaStream self (stop_requested self rec st)
    | Some _ => (Returned tt, stop_requested self rec st)
    end.
Proof.
  intros H. unfold stopRecording. unfold bind at 1. unfold read. rewrite H.
  unfold rec_stop, removeEventListener. run_monad.
  rewrite <- app_assoc, !alter_alter. cbn.
  by destruct (customMediaStream (args self)).
Qed.






(** ** Errors *)

Lemma set_error_None st : error st = None -> set_error None st = st.
Proof. destruct st; cbn; by intros ->. Qed.

Lemma acquireMediaStream_run self st :
  acquireMediaStream self st
  = match usable_custom self with
    | Some custom =>
        (Returned (Some custom),
         set_trace (trace st ++ [SetStatus acquiring_media; SetStatus ready])
           (set_status ready
              (set_mediaStream (Some custom) (set_error None st))))
    | None =>
        match requestStream self (before_request st) with
        | (Returned stream, st2) =>
            (Returned (Some stream),
             set_trace (trace st2 ++ [SetStatus ready])
               (set_status ready (set_mediaStream (Some stream) st2)))
        | (Thrown err, st2) =>
            (Returned None,
             set_trace (trace st2 ++ [SetStatus failed])
               (set_status failed (set_error (Some (caught err)) st2)))
        end
    end.
Proof.
  unfold acquireMediaStream, usable_custom, before_request.
  run_monad.
  destruct (error st) eqn:E; cbn; [|rewrite (set_error_None st E)].
  all: destruct (customMediaStream (args self)) as [custom|].
  all: try destruct (instanceof_MediaStream custom).
  all: try by destruct (requestStream self _) as [[s|e] st2].
  all: unfold_setters; cbn; by rewrite <- app_assoc.
Qed.

(** A request only adds browser requests to the trace, a prefix of the plan:
    nothing is asked twice. *)
Lemma requestStream_trace self st :
  exists l,
    trace (requestStream self st).2 = trace st ++ l
    /\ exists rest, request_plan self = l ++ rest.
Proof.
  unfold requestStream, request_plan, getWindow, mediaDevices_of,
    call_getDisplayMedia, call_getUserMedia, await.
  run_monad.
  repeat (case_match; simplify_eq; cbn in * );
    rewrite <- ?app_assoc; cbn;
    first
      [ by (exists []; rewrite app_nil_r; split; [reflexivity | eexists])
      | by (eexists; split; [reflexivity | by eexists]) ].
Qed.

Lemma startRecording_split self timeSlice st :
  startRecording self timeSlice st
  = match obtain_stream self st with
    | (Returned (Some s), st0) => record self timeSlice s st0
    | (Returned None, st0) => (Returned tt, st0)
    | (Thrown e, st0) => (Thrown e, st0)
    end.
Proof.
  change (startRecording self timeSlice) with
    (e <- read error ;;
     when (notnull e) (setError None) ;;
     cur <- read mediaStream ;;
     stream <- match cur with
               | Some s => ret (Some s)
               | None => acquireMediaStream self
               end ;;
     write (set_mediaChunks []) ;;
     match stream with
     | Some s => record self timeSlice s
     | None => ret tt
     end).
  unfold obtain_stream. generalize (record self timeSlice) as body.
  generalize (acquireMediaStream self) as acquire. intros acquire body.
  run_monad.
  destruct (notnull (error st)); cbn.
  - destruct (mediaStream st); cbn; [done|].
    by destruct (acquire (set_error None st)) as [[[s|]|e] st1].
  - destruct (mediaStream st); cbn; [done|].
    by destruct (acquire st) as [[[s|]|e] st1].
Qed.

Lemma alter_last {A} (f : A -> A) (h : list A) (x : A) :
  alter f (length h) (h ++ [x]) = h ++ [f x].
Proof.
  replace (length h) with (length h + 0) by lia. by rewrite alter_app_r.
Qed.

Lemma lookup_last {A} (h : list A) (x : A) :
  (h ++ [x]) !! length h = Some x.
Proof. by rewrite list_lookup_middle. Qed.

Lemma record_run self timeSlice s st0 w st1 cls :
  getWindow self st0 = (Returned w, st1) ->
  MediaRecorder w = Some cls ->
  record self timeSlice s st0
  = match construct cls s (mediaRecorderOptions (args self)) with
    | Some e =>
        (Thrown e, set_trace (trace st1 ++ [CallNewMediaRecorder s]) st1)
    | None =>
        let st2 := before_start self timeSlice s cls st1 in
        match start cls s (mediaRecorderOptions (args self)) timeSlice with
        | Some e =>
            (Returned tt,
             set_trace
               (trace st2 ++ SetStatus idle ::
                  (if onError (args self) then [OnError (caught e)] else []))
               (set_status idle (set_error (Some (caught e)) st2)))
        | None =>
            (Returned tt,
             set_trace
               (trace st2 ++ SetStatus recording ::
                  (if onStart (args self) then [OnStart] else []))
               (set_status recording
                  (set_heap
                     (heap st1 ++
                        [set_rec_state rs_recording
                           (fresh_recorder self s cls)]) st2)))
        end
    end.
Proof.
  intros Hw Hcls. unfold record. unfold bind at 1. rewrite Hw.
  unfold new_MediaRecorder. rewrite Hcls.
  unfold handleTryCatchStart, rec_start, addEventListener, before_start.
  run_monad.
  destruct (construct cls s _) as [e|]; [done|]. cbn.
  rewrite !alter_last. cbn. rewrite lookup_last. cbn.
  destruct (start cls s _ timeSlice) as [e|]; cbn.
  - destruct (onError (args self)); cbn; rewrite <- ?app_assoc; done.
  - rewrite alter_last.
    destruct (onStart (args self)); cbn; rewrite <- ?app_assoc; done.
Qed.

(** A request touches nothing but the cached window and the trace. *)
Lemma requestStream_frame self st :
  let st' := (requestStream self st).2 in
  error st' = error st /\ status st' = status st
  /\ mediaStream st' = mediaStream st /\ mediaChunks st' = mediaChunks st
  /\ mediaRecorder st' = mediaRecorder st /\ heap st' = heap st
  /\ mediaBlob st' = mediaBlob st
  /\ browserSupportError st' = browserSupportError st.
Proof.
  unfold requestStream, getWindow, mediaDevices_of,
    call_getDisplayMedia, call_getUserMedia, await.
  run_monad.
  repeat (case_match; simplify_eq; cbn in * ); done.
Qed.


Lemma getWindow_frame self st0 w st1 :
  getWindow self st0 = (Returned w, st1) ->
  error st1 = error st0 /\ status st1 = status st0
  /\ trace st1 = trace st0 /\ heap st1 = heap st0.
Proof.
  unfold getWindow. run_monad.
  repeat (case_match; simplify_eq; cbn in * ); by intros [= <- <-].
Qed.

Lemma request_plan_no_callback self requests rest :
  request_plan self = requests ++ rest ->
  Forall (fun e => is_callback e = false) requests.
Proof.
  intros H.
  assert (Hall : Forall (fun e => is_callback e = false) (request_plan self)).
  { unfold request_plan. repeat case_match; repeat constructor. }
  rewrite H in Hall. by apply Forall_app in Hall as [? _].
Qed.




(** ** A recording session *)

Lemma handleDataAvailable_run handler data st :
  handleDataAvailable handler data st
  = (Returned tt,
     set_trace
       (trace st ++ (if onDataAvailable (args handler)
                     then [OnDataAvailable data] else []))
       (set_mediaChunks (mediaChunks st ++ collected [data]) st)).
Proof.
  unfold handleDataAvailable, collected. run_monad.
  destruct (Nat.eqb (blob_size data) 0), (onDataAvailable (args handler));
    cbn; rewrite ?app_nil_r; by destruct st.
Qed.






Lemma clear_error_then {A} (rest : M A) st :
  bind (read error)
       (fun e => bind (when (notnull e) (setError None)) (fun _ => rest)) st
  = rest (set_error None st).
Proof.
  run_monad. destruct (error st) eqn:E; cbn; [done|].
  by rewrite set_error_None.
Qed.

Lemma startRecording_forgets_error self timeSlice st :
  startRecording self timeSlice st
  = startRecording self timeSlice (set_error None st).
Proof. unfold startRecording. by rewrite !clear_error_then. Qed.




(** ** The capability check *)

Lemma getWindow_cached self st w st1 :
  getWindow self st = (Returned w, st1) ->
  getWindow self st1 = (Returned w, st1)
  /\ window st1 = window st /\ trace st1 = trace st
  /\ mediaStream st1 = mediaStream st.
Proof.
  unfold getWindow. run_monad.
  destruct (windowRef st) as [w0|] eqn:Hr; cbn.
  - intros [= <- <-]. by rewrite Hr.
  - destruct (window st) as [g|] eqn:Hg; cbn; [|done].
    intros [= <- <-]. unfold_setters. cbn. by rewrite Hg.
Qed.


(** The check writes nothing but the support error and the cached window: in
    particular it asks the browser for no stream. *)
Lemma supportCheck_frame self st :
  let st' := exec (supportCheck self) st in
  trace st' = trace st /\ mediaStream st' = mediaStream st
  /\ status st' = status st /\ error st' = error st.
Proof.
  unfold supportCheck, global_isTypeSupported, getWindow, mediaDevices_of.
  run_monad.
  repeat (case_match; simplify_eq; cbn in * ); done.
Qed.




(** C5 at the failing input.  The recorder class does not support the
    requested MIME type, yet the check records no support error: with
    [recordScreen] set, line 265 reads [getDisplayMedia] off the undefined
    [navigator.mediaDevices] and throws, before the guard of line 271 is
    reached.  With [recordScreen] off the same page reaches that guard and a
    support error is recorded. *)
Theorem supportCheck_throws_without_mediaDevices :
  let page := mount (Some Fixture.insecure_browser) in
  isTypeSupported Fixture.recorder_class "video/x-matroska" = false
  /\ outcome (supportCheck (Fixture.screen_render true)) page
     = Thrown (TypeError "Cannot read properties of undefined")
  /\ browserSupportError
       (exec (supportCheck (Fixture.screen_render true)) page)
     = None
  /\ browserSupportError
       (exec (supportCheck (Fixture.screen_render false)) page)
     = Some "The MediaDevices interface is not available on this browser.".
Proof. cbn. repeat split; reflexivity. Qed.

(** The recorded support error is for the component to show: nothing in the
    hook reads it.  Here the check has rejected the MIME type, and
    [startRecording] goes on to ask the browser for a stream all the same. *)
Example startRecording_after_rejection :
  let rejected := exec (supportCheck (Fixture.screen_render false))
                       (mount (Some Fixture.browser)) in
  let st' := exec (startRecording (Fixture.screen_render false) None)
                  rejected in
  browserSupportError rejected
  = Some "The specified MIME type [video/x-matroska] supplied to MediaRecorder is not supported by this browser."
  /\ added rejected st'
     = [SetStatus acquiring_media;
        CallGetUserMedia {| video := tc_bool true; audio := tc_bool true |};
        SetStatus ready;
        CallNewMediaRecorder Fixture.user_stream;
        CallStart 0 None;
        SetStatus recording;
        OnStart].
Proof. vm_compute. split; reflexivity. Qed.

(** ** After [stopRecording] *)

Lemma stopped_recorder_spec self r :
  rec_state (stopped_recorder self r) = rs_inactive
  /\ Forall (fun l => render_id (l_closure l) <> render_id self)
            (rec_listeners (stopped_recorder self r)).
Proof.
  split; [done|]. unfold stopped_recorder. cbn.
  apply Forall_forall. intros l Hl. apply list_elem_of_In in Hl.
  apply List.filter_In in Hl as [Hl He].
  apply List.filter_In in Hl as [Hl Hs].
  apply List.filter_In in Hl as [Hl Hd].
  unfold same_listener in *. cbn in *.
  intros Heq. symmetry in Heq. apply Nat.eqb_eq in Heq.
  rewrite Heq in *. by destruct (l_type l).
Qed.

Lemma stopRecording_heap self st rec :
  mediaRecorder st = Some rec ->
  let st' := exec (stopRecording self) st in
  mediaRecorder st' = None
  /\ heap st' = alter (stopped_recorder self) rec (heap st).
Proof.
  intros Hr. cbn. unfold exec. rewrite (stopRecording_run _ _ _ Hr).
  destruct (customMediaStream (args self)); [done|].
  rewrite releaseMediaStream_run. cbn. by destruct (mediaStream st).
Qed.

Lemma pauseRecording_None self st :
  mediaRecorder st = None -> pauseRecording self st = (Returned tt, st).
Proof. intros H. unfold pauseRecording, bind, read. by rewrite H. Qed.

Lemma resumeRecording_None self st :
  mediaRecorder st = None -> resumeRecording self st = (Returned tt, st).
Proof. intros H. unfold resumeRecording, bind, read. by rewrite H. Qed.

Lemma handleEvent_mediaRecorder handler ev st :
  mediaRecorder (handleEvent handler ev st).2 = mediaRecorder st
  /\ heap (handleEvent handler ev st).2 = heap st
  /\ exists r, (handleEvent handler ev st).1 = Returned r.
Proof.
  destruct ev as [data| |e]; cbn [handleEvent].
  - rewrite handleDataAvailable_run. by eauto.
  - rewrite handleStop_run. by eauto.
  - unfold handleError. run_monad. destruct (onError (args handler)); by eauto.
Qed.

Lemma forEach_handleEvent (ls : list Listener) ev st :
  mediaRecorder (forEach ls (fun l => handleEvent (l_closure l) ev) st).2
  = mediaRecorder st.
Proof.
  revert st. induction ls as [|l ls IH]; intros st; [done|].
  cbn [forEach]. unfold bind.
  destruct (handleEvent_mediaRecorder (l_closure l) ev st) as (Hm & _ & r & Hr).
  destruct (handleEvent (l_closure l) ev st) as [[u|e] st1]; cbn in *;
    [|done].
  by rewrite IH.
Qed.

Lemma dispatchEvent_mediaRecorder rec ev st :
  mediaRecorder (exec (dispatchEvent rec ev) st) = mediaRecorder st.
Proof.
  unfold exec, dispatchEvent, recorder. unfold bind, read.
  destruct (heap st !! rec) as [r|]; [|done].
  apply forEach_handleEvent.
Qed.

Lemma acquireMediaStream_mediaRecorder self st :
  mediaRecorder (exec (acquireMediaStream self) st) = mediaRecorder st.
Proof.
  unfold exec. rewrite acquireMediaStream_run.
  destruct (usable_custom self); [done|].
  pose proof (requestStream_frame self (before_request st))
    as (_ & _ & _ & _ & Hm & _).
  by destruct (requestStream self _) as [[s|e] st2].
Qed.

Lemma supportCheck_mediaRecorder self st :
  mediaRecorder (exec (supportCheck self) st) = mediaRecorder st.
Proof.
  unfold supportCheck, global_isTypeSupported, getWindow, mediaDevices_of.
  run_monad.
  repeat (case_match; simplify_eq; cbn in * ); done.
Qed.

Lemma muteAudio_mediaRecorder self mute st :
  mediaRecorder (exec (muteAudio self mute) st) = mediaRecorder st.
Proof.
  unfold exec, muteAudio. unfold bind at 1. unfold bind at 1. unfold read.
  destruct (mediaStream st) as [s|]; [|done].
  by rewrite (forEach_emit (fun t => CallTrackEnabled t (negb mute))).
Qed.

(** No call but [startRecording] brings a recorder handle back. *)
Lemma step_keeps_no_handle self c st :
  is_startRecording c = false ->
  mediaRecorder st = None ->
  mediaRecorder (step self c st) = None.
Proof.
  intros Hc Hr. destruct c; cbn [step]; try done.
  - by rewrite acquireMediaStream_mediaRecorder.
  - unfold exec. rewrite releaseMediaStream_run. cbn.
    by destruct (mediaStream st).
  - unfold exec. by rewrite pauseRecording_None.
  - unfold exec. by rewrite resumeRecording_None.
  - unfold exec. by rewrite stopRecording_None.
  - by rewrite muteAudio_mediaRecorder.
  - by rewrite supportCheck_mediaRecorder.
  - by rewrite dispatchEvent_mediaRecorder.
Qed.

Lemma run_keeps_no_handle calls st :
  Forall (fun rc => is_startRecording rc.2 = false) calls ->
  mediaRecorder st = None ->
  mediaRecorder (run calls st) = None.
Proof.
  revert st. induction calls as [|[self c] calls IH]; intros st Hall Hr;
    [done|].
  apply Forall_cons in Hall as [Hc Hall]. cbn.
  apply IH; [done|]. by apply step_keeps_no_handle.
Qed.

(** X2. After a [stopRecording] that found a recorder handle, the handle is
    null, the recorder is inactive and none of the handlers of the render
    that made the call is registered on it any more.  From then on, and until
    [startRecording] is called, every [pauseRecording], [resumeRecording] and
    [stopRecording] is a no-op. *)
Theorem stopRecording_discards_handle (self : Render) (st : St) (rec : nat)
    (r : MediaRecorderObj) :
  mediaRecorder st = Some rec ->
  heap st !! rec = Some r ->
  let st' := exec (stopRecording self) st in
  mediaRecorder st' = None
  /\ (exists r', heap st' !! rec = Some r'
        /\ rec_state r' = rs_inactive
        /\ Forall (fun l => render_id (l_closure l) <> render_id self)
                  (rec_listeners r'))
  /\ forall calls caller,
       Forall (fun rc => is_startRecording rc.2 = false) calls ->
       let later := run calls st' in
       pauseRecording caller later = (Returned tt, later)
       /\ resumeRecording caller later = (Returned tt, later)
       /\ stopRecording caller later = (Returned tt, later).
Proof.
  intros Hr Hh. cbv zeta.
  destruct (stopRecording_heap self st rec Hr) as [Hn Hheap].
  split; [exact Hn|]. split.
  - exists (stopped_recorder self r). rewrite Hheap, list_lookup_alter_eq, Hh.
    split; [done|]. apply stopped_recorder_spec.
  - intros calls caller Hall.
    pose proof (run_keeps_no_handle calls _ Hall Hn) as Hl. cbv zeta.
    by rewrite pauseRecording_None, resumeRecording_None, stopRecording_None.
Qed.

Lemma stopRecording_discards_handle_started :
  let st' := exec (stopRecording (Fixture.render 1)) Fixture.started in
  mediaRecorder st' = None
  /\ (exists r', heap st' !! 0 = Some r'
        /\ rec_state r' = rs_inactive
        /\ Forall (fun l => render_id (l_closure l) <> 1) (rec_listeners r'))
  /\ forall calls caller,
       Forall (fun rc => is_startRecording rc.2 = false) calls ->
       let later := run calls st' in
       pauseRecording caller later = (Returned tt, later)
       /\ resumeRecording caller later = (Returned tt, later)
       /\ stopRecording caller later = (Returned tt, later).
Proof.
  apply (stopRecording_discards_handle (Fixture.render 1) Fixture.started 0
           (set_rec_state rs_recording
              (fresh_recorder (Fixture.render 0) Fixture.user_stream
                 Fixture.recorder_class)));
    vm_compute; reflexivity.
Defined.

(** C8 at the failing input.  [startRecording] ran in the first render and
    registered that render's handlers; its own state updates caused a second
    render, through which [stopRecording] is called.  The handle is null
    afterwards, but [removeEventListener] was given the second render's
    handlers, which were never registered: the recorder still carries the
    three listeners, and the stop notification still runs [handleStop].
    Called through the first render instead, [stopRecording] does remove
    them, and the stop notification reaches no handler. *)
Theorem stopRecording_leaves_listeners :
  let first := Fixture.render 0 in
  let second := Fixture.render 1 in
  let st' := exec (stopRecording second) Fixture.started in
  let same := exec (stopRecording first) Fixture.started in
  mediaRecorder Fixture.started = Some 0
  /\ mediaRecorder st' = None
  /\ rec_listeners <$> heap st' !! 0
     = Some [ {| l_type := ev_dataavailable; l_closure := first |};
              {| l_type := ev_stop; l_closure := first |};
              {| l_type := ev_error; l_closure := first |} ]
  /\ status (exec (dispatchEvent 0 StopEvent) st') = stopped
  /\ rec_listeners <$> heap same !! 0 = Some []
  /\ exec (dispatchEvent 0 StopEvent) same = same.
Proof. vm_compute. repeat split; reflexivity. Qed.

(** * Further properties of the hook *)

(** ** The effects and the frame of a call *)

Lemma emits_ret K {A} (a : A) : emits_only K (ret a).
Proof. intros st. exists []. by rewrite app_nil_r. Qed.

Lemma emits_throw K {A} e : emits_only K (@throw A e).
Proof. intros st. exists []. by rewrite app_nil_r. Qed.

Lemma emits_read K {A} (f : St -> A) : emits_only K (read f).
Proof. intros st. exists []. by rewrite app_nil_r. Qed.

Lemma emits_write K f :
  (forall st, trace (f st) = trace st) -> emits_only K (write f).
Proof. intros H st. exists []. cbn. by rewrite H, app_nil_r. Qed.

Lemma emits_emit (K : Effect -> bool) e : K e = true -> emits_only K (emit e).
Proof. intros H st. exists [e]. cbn. split; [done|]. by constructor. Qed.

Lemma emits_bind K {A B} (m : M A) (k : A -> M B) :
  emits_only K m -> (forall a, emits_only K (k a)) ->
  emits_only K (bind m k).
Proof.
  intros Hm Hk st. destruct (Hm st) as (l1 & H1 & F1). unfold bind.
  destruct (m st) as [[a|e] st1]; cbn in *.
  - destruct (Hk a st1) as (l2 & H2 & F2). exists (l1 ++ l2).
    rewrite H2, H1, app_assoc. split; [done|]. by apply Forall_app.
  - by exists l1.
Qed.

Lemma emits_try_catch K {A} (m : M A) (h : JsError -> M A) :
  emits_only K m -> (forall e, emits_only K (h e)) ->
  emits_only K (try_catch m h).
Proof.
  intros Hm Hh st. destruct (Hm st) as (l1 & H1 & F1). unfold try_catch.
  destruct (m st) as [[a|e] st1]; cbn in *.
  - by exists l1.
  - destruct (Hh e st1) as (l2 & H2 & F2). exists (l1 ++ l2).
    rewrite H2, H1, app_assoc. split; [done|]. by apply Forall_app.
Qed.

Lemma emits_when K b m : emits_only K m -> emits_only K (when b m).
Proof. destruct b; [done|]. intros _. apply emits_ret. Qed.

Lemma emits_forEach K {A} (l : list A) (f : A -> M unit) :
  (forall x, emits_only K (f x)) -> emits_only K (forEach l f).
Proof.
  intros Hf. induction l as [|x l IH]; cbn [forEach].
  - apply emits_ret.
  - apply emits_bind; [apply Hf | intros _; apply IH].
Qed.

Ltac footprint_step :=
  first
    [ apply emits_ret | apply emits_throw | apply emits_read
    | apply emits_emit; reflexivity
    | apply emits_write; intros ?; reflexivity
    | apply emits_when
    | apply emits_forEach; intros ?
    | apply emits_bind; [| intros ?]
    | apply emits_try_catch; [| intros ?]
    | match goal with
      | |- emits_only _ (match ?x with _ => _ end) => destruct x
      | |- emits_only _ (if ?x then _ else _) => destruct x
      end
    | progress unfold setStatus, setError, setMediaBlob,
        setBrowserSupportError, setActiveMediaRecorder, setIsAudioMuted,
        optional_call, update_recorder, recorder, await ].

Ltac footprint_steps := repeat footprint_step.

Lemma getWindow_emits K self : emits_only K (getWindow self).
Proof. unfold getWindow. footprint_steps. Qed.

Lemma requestStream_emits (K : Effect -> bool) self :
  (forall c, K (CallGetDisplayMedia c) = true) ->
  (forall c, K (CallGetUserMedia c) = true) ->
  emits_only K (requestStream self).
Proof.
  intros Hd Hu.
  unfold requestStream, mediaDevices_of, call_getDisplayMedia,
    call_getUserMedia.
  repeat first [ apply getWindow_emits | apply emits_emit; by auto
               | footprint_step ].
Qed.

Lemma acquireMediaStream_emits (K : Effect -> bool) self :
  (forall c, K (CallGetDisplayMedia c) = true) ->
  (forall c, K (CallGetUserMedia c) = true) ->
  K (SetStatus acquiring_media) = true ->
  K (SetStatus ready) = true ->
  K (SetStatus failed) = true ->
  emits_only K (acquireMediaStream self).
Proof.
  intros Hd Hu H1 H2 H3. unfold acquireMediaStream.
  repeat first [ apply requestStream_emits; by auto
               | apply emits_emit; by auto
               | footprint_step ].
Qed.

Lemma releaseMediaStream_emits (K : Effect -> bool) self :
  (forall t, K (CallTrackStop t) = true) ->
  K (SetStatus idle) = true ->
  emits_only K (releaseMediaStream self).
Proof.
  intros Ht Hi. unfold releaseMediaStream.
  repeat first [ apply emits_emit; by auto | footprint_step ].
Qed.

Lemma handleEvent_emits self rec ev :
  emits_only (footprint (call_event rec ev)) (handleEvent self ev).
Proof.
  destruct ev; cbn [handleEvent];
    unfold handleDataAvailable, handleStop, handleError; footprint_steps.
Qed.

Lemma step_emits (self : Render) (c : Call) (st : St) :
  exists l,
    trace (step self c st) = trace st ++ l
    /\ Forall (fun e => footprint c e = true) l.
Proof.
  revert st. change (forall st, exists l,
                       trace (step self c st) = trace st ++ l
                       /\ Forall (fun e => footprint c e = true) l).
  destruct c; cbn [step]; unfold exec.
  - by apply acquireMediaStream_emits.
  - by apply releaseMediaStream_emits.
  - refine (_ : emits_only (footprint _) _).
    unfold startRecording, new_MediaRecorder, addEventListener, rec_start,
      handleTryCatchStart.
    repeat first [ apply getWindow_emits
                 | apply acquireMediaStream_emits; by auto
                 | footprint_step ].
  - refine (_ : emits_only (footprint _) _).
    unfold pauseRecording, rec_pause. footprint_steps.
  - refine (_ : emits_only (footprint _) _).
    unfold resumeRecording, rec_resume. footprint_steps.
  - refine (_ : emits_only (footprint _) _).
    unfold stopRecording, rec_stop, removeEventListener.
    repeat first [ apply releaseMediaStream_emits; by auto
                 | footprint_step ].
  - refine (_ : emits_only (footprint _) _). unfold muteAudio. footprint_steps.
  - refine (_ : emits_only (footprint _) _).
    unfold clearMediaBlob. footprint_steps.
  - refine (_ : emits_only (footprint _) _).
    unfold supportCheck, mediaDevices_of, global_isTypeSupported.
    repeat first [ apply getWindow_emits | footprint_step ].
  - refine (_ : emits_only (footprint _) _). unfold dispatchEvent.
    repeat first [ apply handleEvent_emits | footprint_step ].
Qed.

Lemma run_cons rc calls st :
  run (rc :: calls) st = run calls (step rc.1 rc.2 st).
Proof. reflexivity. Qed.

Lemma run_emits (calls : list (Render * Call)) (st : St) :
  exists l,
    trace (run calls st) = trace st ++ l
    /\ Forall (fun e => exists rc, In rc calls /\ footprint rc.2 e = true) l.
Proof.
  revert st. induction calls as [|[self c] calls IH]; intros st.
  - exists []. by rewrite app_nil_r.
  - rewrite run_cons. cbn [fst snd].
    destruct (step_emits self c st) as (l1 & H1 & F1).
    destruct (IH (step self c st)) as (l2 & H2 & F2).
    exists (l1 ++ l2). rewrite H2, H1, app_assoc. split; [done|].
    apply Forall_app. split.
    + eapply Forall_impl; [exact F1|]. intros e He.
      exists (self, c). split; [by left|done].
    + eapply Forall_impl; [exact F2|]. intros e (rc & Hin & He).
      exists rc. split; [by right|done].
Qed.

(** X21. Every call has a fixed footprint of outward effects, and the trace
    of a run only grows, by effects in the footprint of one of its calls.
    So tracks are stopped only by [releaseMediaStream] and [stopRecording],
    the browser is asked for a stream only by [acquireMediaStream] and
    [startRecording], [onStop] and [onDataAvailable] run only from recorder
    events, and the capability check and [clearMediaBlob] have no outward
    effect at all. *)
Theorem effects_of_a_run (calls : list (Render * Call)) (st : St) :
  exists l,
    trace (run calls st) = trace st ++ l
    /\ added st (run calls st) = l
    /\ Forall (fun e => exists rc, In rc calls /\ footprint rc.2 e = true) l.
Proof.
  destruct (run_emits calls st) as (l & Hl & Hf). exists l.
  split; [done|]. split; [by apply added_app | done].
Qed.

Lemma keeps_ret `{!PreOrder R} {A} (a : A) : keeps R (ret a).
Proof. intros st. reflexivity. Qed.

Lemma keeps_throw `{!PreOrder R} {A} e : keeps R (@throw A e).
Proof. intros st. reflexivity. Qed.

Lemma keeps_read `{!PreOrder R} {A} (f : St -> A) : keeps R (read f).
Proof. intros st. reflexivity. Qed.

Lemma keeps_write (R : St -> St -> Prop) f :
  (forall st, R st (f st)) -> keeps R (write f).
Proof. intros H st. apply H. Qed.

Lemma keeps_bind `{!PreOrder R} {A B} (m : M A) (k : A -> M B) :
  keeps R m -> (forall a, keeps R (k a)) -> keeps R (bind m k).
Proof.
  intros Hm Hk st. pose proof (Hm st) as H1. unfold bind.
  destruct (m st) as [[a|e] st1]; cbn in *; [|done].
  etrans; [exact H1 | apply Hk].
Qed.

Lemma keeps_try_catch `{!PreOrder R} {A} (m : M A) (h : JsError -> M A) :
  keeps R m -> (forall e, keeps R (h e)) -> keeps R (try_catch m h).
Proof.
  intros Hm Hh st. pose proof (Hm st) as H1. unfold try_catch.
  destruct (m st) as [[a|e] st1]; cbn in *; [done|].
  etrans; [exact H1 | apply Hh].
Qed.

Lemma keeps_when `{!PreOrder R} b m : keeps R m -> keeps R (when b m).
Proof. destruct b; [done|]. intros _. apply keeps_ret. Qed.

Lemma keeps_forEach `{!PreOrder R} {A} (l : list A) (f : A -> M unit) :
  (forall x, keeps R (f x)) -> keeps R (forEach l f).
Proof.
  intros Hf. induction l as [|x l IH]; cbn [forEach].
  - apply keeps_ret.
  - apply keeps_bind; [apply Hf | intros _; apply IH].
Qed.

Lemma run_keeps `{!PreOrder R} (P : Call -> Prop) calls st :
  (forall self c s, P c -> R s (step self c s)) ->
  Forall (fun rc => P rc.2) calls ->
  R st (run calls st).
Proof.
  intros Hstep. revert st. induction calls as [|[self c] calls IH];
    intros st Hall.
  - reflexivity.
  - apply Forall_cons in Hall as [Hc Hall]. rewrite run_cons.
    etrans; [by apply Hstep | by apply IH].
Qed.

#[global] Instance same_cell_preorder x : PreOrder (same_cell x).
Proof.
  split.
  - intros st. by destruct x.
  - intros a b c. destruct x; cbn; congruence.
Qed.

#[global] Instance support_error_stays_preorder :
  PreOrder support_error_stays.
Proof.
  split; unfold support_error_stays; [by intros st|].
  by intros a b c; auto.
Qed.

#[global] Instance chunks_grow_preorder : PreOrder chunks_grow.
Proof.
  split; unfold chunks_grow.
  - by intros st.
  - intros a b c. apply PreOrder_Transitive.
Qed.

#[global] Instance window_stays_preorder : PreOrder window_stays.
Proof.
  split; unfold window_stays; [by intros st|]. by intros a b c; auto.
Qed.

(** One step of a proof of [keeps]; [tac] settles what a [write] does. *)
Ltac keeps_step tac :=
  first
    [ apply keeps_ret | apply keeps_throw | apply keeps_read
    | apply keeps_write; tac
    | apply keeps_when
    | apply keeps_forEach; intros ?
    | apply keeps_bind; [| intros ?]
    | apply keeps_try_catch; [| intros ?]
    | match goal with
      | |- keeps _ (match ?y with _ => _ end) => destruct y
      | |- keeps _ (if ?y then _ else _) => destruct y
      end
    | progress unfold setStatus, setError, setMediaBlob,
        setBrowserSupportError, setActiveMediaRecorder, setIsAudioMuted,
        optional_call, update_recorder, recorder, await, emit,
        mediaDevices_of ].

Ltac same_cell_step := keeps_step ltac:(intros ?; reflexivity).

Lemma getWindow_keeps x self : keeps (same_cell x) (getWindow self).
Proof. unfold getWindow. destruct x; repeat same_cell_step. Qed.

Lemma requestStream_keeps x self : keeps (same_cell x) (requestStream self).
Proof.
  unfold requestStream, call_getDisplayMedia, call_getUserMedia.
  destruct x; repeat first [ apply getWindow_keeps | same_cell_step ].
Qed.

Lemma handleEvent_keeps x self rec ev :
  may_change (call_event rec ev) x = false ->
  keeps (same_cell x) (handleEvent self ev).
Proof.
  destruct ev; cbn [handleEvent];
    unfold handleDataAvailable, handleStop, handleError;
    destruct x; intros [=]; repeat same_cell_step.
Qed.

Lemma step_frame (self : Render) (c : Call) (x : Cell) (st : St) :
  may_change c x = false ->
  same_cell x st (step self c st).
Proof.
  intros H. revert st.
  change (forall st, same_cell x st (step self c st)).
  destruct c; cbn [step]; unfold exec.
  - refine (_ : keeps (same_cell x) _). unfold acquireMediaStream.
    destruct x; try discriminate H;
      repeat first [ apply requestStream_keeps | same_cell_step ].
  - refine (_ : keeps (same_cell x) _). unfold releaseMediaStream.
    destruct x; try discriminate H; repeat same_cell_step.
  - refine (_ : keeps (same_cell x) _).
    unfold startRecording, acquireMediaStream, new_MediaRecorder,
      addEventListener, rec_start, handleTryCatchStart.
    destruct x; try discriminate H;
      repeat first [ apply requestStream_keeps | apply getWindow_keeps
                   | same_cell_step ].
  - refine (_ : keeps (same_cell x) _). unfold pauseRecording, rec_pause.
    destruct x; try discriminate H; repeat same_cell_step.
  - refine (_ : keeps (same_cell x) _). unfold resumeRecording, rec_resume.
    destruct x; try discriminate H; repeat same_cell_step.
  - refine (_ : keeps (same_cell x) _).
    unfold stopRecording, releaseMediaStream, rec_stop, removeEventListener.
    destruct x; try discriminate H; repeat same_cell_step.
  - refine (_ : keeps (same_cell x) _). unfold muteAudio.
    destruct x; try discriminate H; repeat same_cell_step.
  - refine (_ : keeps (same_cell x) _). unfold clearMediaBlob.
    destruct x; try discriminate H; repeat same_cell_step.
  - refine (_ : keeps (same_cell x) _).
    unfold supportCheck, global_isTypeSupported.
    destruct x; try discriminate H;
      repeat first [ apply getWindow_keeps | same_cell_step ].
  - refine (_ : keeps (same_cell x) _). unfold dispatchEvent.
    repeat first [ apply handleEvent_keeps with (rec := rec); exact H
                 | same_cell_step ].
Qed.

Lemma run_frame (x : Cell) (calls : list (Render * Call)) (st : St) :
  Forall (fun rc => may_change rc.2 x = false) calls ->
  same_cell x st (run calls st).
Proof.
  apply (run_keeps (fun c => may_change c x = false)).
  intros self c s Hc. by apply step_frame.
Qed.

(** X22. Each call writes a fixed set of store cells; a run whose calls all
    leave a cell alone leaves it as it was.  So [mediaBlob] changes only at a
    stop notification and at [clearMediaBlob], [browserSupportError] only in
    the capability check, the recorder handle only in [startRecording] and
    [stopRecording], [activeMediaRecorder] only in [startRecording]. *)
Theorem cells_a_run_leaves_alone (x : Cell) (calls : list (Render * Call))
    (st : St) :
  Forall (fun rc => may_change rc.2 x = false) calls ->
  same_cell x st (run calls st).
Proof. apply run_frame. Qed.

Lemma cells_a_run_leaves_alone_example :
  same_cell cell_activeMediaRecorder Fixture.started
    (run [(Fixture.render 1, call_pauseRecording);
          (Fixture.render 2, call_event 0 (BlobEvent Fixture.chunk1));
          (Fixture.render 2, call_stopRecording);
          (Fixture.render 3, call_event 0 StopEvent)] Fixture.started).
Proof.
  apply (cells_a_run_leaves_alone cell_activeMediaRecorder).
  repeat constructor.
Defined.

(** ** The window *)

Lemma getWindow_cached_anywhere (self other : Render) (st : St)
    (w : Window) (st1 : St) :
  getWindow self st = (Returned w, st1) ->
  getWindow other st1 = (Returned w, st1) /\ windowRef st1 = Some w.
Proof.
  unfold getWindow. run_monad.
  destruct (windowRef st) as [w0|] eqn:Hr; cbn.
  - intros [= <- <-]. by rewrite Hr.
  - destruct (window st) as [g|] eqn:Hg; cbn; [|done].
    by intros [= <- <-].
Qed.

Lemma getWindow_keeps_window self : keeps window_stays (getWindow self).
Proof. intros st w Hw. unfold getWindow. run_monad. by rewrite Hw. Qed.

Ltac window_stays_step :=
  first [ apply getWindow_keeps_window
        | keeps_step ltac:(intros ? ? H; exact H) ].

Lemma step_keeps_window self c st : window_stays st (step self c st).
Proof.
  revert st. change (forall st, window_stays st (step self c st)).
  destruct c; cbn [step]; unfold exec;
    refine (_ : keeps window_stays _);
    unfold startRecording, stopRecording, acquireMediaStream, requestStream,
      call_getDisplayMedia, call_getUserMedia, releaseMediaStream,
      new_MediaRecorder, addEventListener, rec_start, handleTryCatchStart,
      pauseRecording, rec_pause, resumeRecording, rec_resume, rec_stop,
      removeEventListener, muteAudio, clearMediaBlob, supportCheck,
      global_isTypeSupported, dispatchEvent, handleEvent,
      handleDataAvailable, handleStop, handleError;
    repeat window_stays_step.
Qed.

(** X3. The window is retrieved once per mounted component: after the first
    successful [getWindow], every later [getWindow], through whatever render
    and after whatever calls and events, returns that same window and writes
    nothing; a [windowOverride] that changes between renders is not consulted
    again. *)
Theorem window_is_retrieved_once (first : Render) (st : St) (w : Window)
    (st1 : St) (calls : list (Render * Call)) (later : Render) :
  getWindow first st = (Returned w, st1) ->
  getWindow later (run calls st1) = (Returned w, run calls st1).
Proof.
  intros Hw.
  destruct (getWindow_cached_anywhere first later _ _ _ Hw) as [_ Hr].
  assert (Hrun : window_stays st1 (run calls st1)).
  { apply (run_keeps (fun _ => True)); [|by apply Forall_true].
    intros self c s _. apply step_keeps_window. }
  specialize (Hrun w Hr). unfold getWindow. run_monad. by rewrite Hrun.
Qed.

Lemma window_is_retrieved_once_example :
  let st1 := exec (getWindow (Fixture.render 0))
                  (mount (Some Fixture.browser)) in
  let calls := [(Fixture.render 0, call_startRecording None);
                (Fixture.render 1, call_stopRecording)] in
  getWindow (Fixture.custom_render 2) (run calls st1)
  = (Returned Fixture.browser, run calls st1).
Proof.
  apply (window_is_retrieved_once (Fixture.render 0)
           (mount (Some Fixture.browser))).
  vm_compute. reflexivity.
Defined.




(** ** Acquiring and releasing the stream *)

(** X5. [releaseMediaStream] is idempotent: after it no stream is held,
    [liveStream] is null, and a second call changes nothing.  It never touches
    the recorder: handle, recorder objects and collected chunks stay, so a
    recording in progress is not stopped by it. *)
Theorem releaseMediaStream_idempotent (self other : Render) (st : St) :
  let st' := exec (releaseMediaStream self) st in
  releaseMediaStream other st' = (Returned tt, st')
  /\ mediaStream st' = None
  /\ liveStream st' = None
  /\ mediaRecorder st' = mediaRecorder st
  /\ heap st' = heap st
  /\ mediaChunks st' = mediaChunks st.
Proof.
  cbn. unfold exec, liveStream. rewrite !releaseMediaStream_run.
  destruct (mediaStream st) as [s|] eqn:Hs; cbn; rewrite ?Hs; done.
Qed.





Lemma has_track_addTrack s u t :
  has_track (addTrack s u) t
  = has_track s t || Nat.eqb (track_id u) (track_id t).
Proof.
  unfold addTrack. destruct (has_track s u) eqn:Hu.
  - destruct (Nat.eqb (track_id u) (track_id t)) eqn:E;
      [|by rewrite orb_false_r].
    apply Nat.eqb_eq in E. rewrite orb_true_r.
    unfold has_track in *. by rewrite <- E.
  - unfold has_track. cbn. rewrite existsb_app. cbn. by rewrite orb_false_r.
Qed.

Lemma has_track_fold_addTrack l s t :
  has_track (fold_left addTrack l s) t
  = has_track s t
    || existsb (fun u => Nat.eqb (track_id u) (track_id t)) l.
Proof.
  revert s. induction l as [|u l IH]; intros s; cbn.
  - by rewrite orb_false_r.
  - by rewrite IH, has_track_addTrack, orb_assoc.
Qed.

Lemma fold_addTrack_prefix l s :
  stream_id (fold_left addTrack l s) = stream_id s
  /\ exists more, stream_tracks (fold_left addTrack l s)
                  = stream_tracks s ++ more
       /\ Forall (fun t => In t l) more.
Proof.
  revert s. induction l as [|u l IH]; intros s; cbn.
  - split; [done|]. exists []. by rewrite app_nil_r.
  - destruct (IH (addTrack s u)) as (Hid & more & Hm & Hall).
    assert (Hs : stream_id (addTrack s u) = stream_id s
                 /\ exists m0, stream_tracks (addTrack s u)
                               = stream_tracks s ++ m0
                      /\ Forall (fun t => t = u) m0).
    { unfold addTrack. destruct (has_track s u); cbn.
      - split; [done|]. exists []. by rewrite app_nil_r.
      - split; [done|]. exists [u]. split; [done|]. by repeat constructor. }
    destruct Hs as (Hid0 & m0 & Hm0 & Hall0).
    split; [congruence|]. exists (m0 ++ more).
    split; [by rewrite Hm, Hm0, <- app_assoc|].
    apply Forall_app. split.
    + eapply Forall_impl; [exact Hall0|]. intros t ->. by left.
    + eapply Forall_impl; [exact Hall|]. intros t Ht. by right.
Qed.

(** The two requests of a screen recording with audio, up to the answer of
    [getUserMedia]. *)
Lemma screen_requests (self : Render) (st : St) (w : Window) (st1 : St)
    (md : MediaDevices)
    (display : MediaStreamConstraints -> JsError + MediaStream)
    (shown : MediaStream) :
  let c := mediaStreamConstraints (args self) in
  let c' := {| video := tc_undefined; audio := audio c |} in
  recordScreen (args self) = true ->
  truthy (audio c) = true ->
  getWindow self st = (Returned w, st1) ->
  navigator_mediaDevices w = Some md ->
  getDisplayMedia md = Some display ->
  display c = inr shown ->
  requestStream self st
  = match getUserMedia md c' with
    | inr heard =>
        (Returned (fold_left addTrack (getAudioTracks heard) shown),
         set_trace (trace st ++ [CallGetDisplayMedia c; CallGetUserMedia c'])
           st1)
    | inl err =>
        (Thrown err,
         set_trace (trace st ++ [CallGetDisplayMedia c; CallGetUserMedia c'])
           st1)
    end.
Proof.
  intros c c' Hscreen Haudio Hw Hmd Hd Hshown.
  destruct (getWindow_cached _ _ _ _ Hw) as (Hw1 & _ & Ht & _).
  set (st2 := set_trace (trace st1 ++ [CallGetDisplayMedia c]) st1).
  assert (Hmd1 : forall s, mediaDevices_of w s = (Returned md, s)).
  { intros s. unfold mediaDevices_of. by rewrite Hmd. }
  assert (Hdisp : call_getDisplayMedia md c st1 = (Returned shown, st2)).
  { unfold call_getDisplayMedia. rewrite Hd. run_monad. by rewrite Hshown. }
  assert (Hw2 : getWindow self st2 = (Returned w, st2)).
  { unfold st2. revert Hw1. unfold getWindow. run_monad.
    destruct (windowRef st1) as [w0|] eqn:Hr; cbn; [by intros [= ->]|].
    destruct (window st1); cbn; [|done]. intros [= Hx Hy].
    apply (f_equal windowRef) in Hy. cbn in Hy. congruence. }
  unfold requestStream. fold c. rewrite Hscreen, Haudio.
  rewrite (bind_run _ _ _ _ _ Hw), (bind_run _ _ _ _ _ (Hmd1 st1)).
  rewrite (bind_run _ _ _ _ _ Hdisp), (bind_run _ _ _ _ _ Hw2).
  rewrite (bind_run _ _ _ _ _ (Hmd1 st2)).
  unfold call_getUserMedia. fold c'. run_monad. rewrite <- Ht.
  destruct (getUserMedia md c') as [err|heard]; cbn;
    by rewrite <- app_assoc.
Qed.

(** X8. In a screen recording with audio, when both requests are granted, the
    stream handed on is the display stream itself, with the microphone's audio
    tracks appended after its own tracks: a track is in it exactly when it is
    in the display stream or is an audio track of the microphone stream, and
    no video track of the microphone stream is added. *)
Theorem requestStream_screen_with_audio (self : Render) (st : St)
    (w : Window) (st1 : St) (md : MediaDevices)
    (display : MediaStreamConstraints -> JsError + MediaStream)
    (shown heard : MediaStream) :
  recordScreen (args self) = true ->
  truthy (audio (mediaStreamConstraints (args self))) = true ->
  getWindow self st = (Returned w, st1) ->
  navigator_mediaDevices w = Some md ->
  getDisplayMedia md = Some display ->
  display (mediaStreamConstraints (args self)) = inr shown ->
  getUserMedia md {| video := tc_undefined;
                     audio := audio (mediaStreamConstraints (args self)) |}
  = inr heard ->
  exists stream,
    outcome (requestStream self) st = Returned stream
    /\ stream_id stream = stream_id shown
    /\ (exists more,
          stream_tracks stream = stream_tracks shown ++ more
          /\ Forall (fun t => In t (stream_tracks heard) /\ is_audio t = true)
                    more)
    /\ (forall t,
          has_track stream t
          = has_track shown t
            || existsb (fun u => Nat.eqb (track_id u) (track_id t))
                       (getAudioTracks heard))
    /\ added st (exec (requestStream self) st) = request_plan self.
Proof.
  intros Hscreen Haudio Hw Hmd Hd Hshown Hheard.
  pose proof (screen_requests self st w st1 md display shown
                Hscreen Haudio Hw Hmd Hd Hshown) as Hrun.
  cbv zeta in Hrun. rewrite Hheard in Hrun.
  exists (fold_left addTrack (getAudioTracks heard) shown).
  unfold outcome, exec. rewrite Hrun. cbn.
  split; [done|].
  destruct (fold_addTrack_prefix (getAudioTracks heard) shown)
    as (Hid & more & Hm & Hall).
  split; [done|]. split.
  - exists more. split; [done|].
    eapply Forall_impl; [exact Hall|]. intros t Hin.
    unfold getAudioTracks in Hin. apply List.filter_In in Hin. done.
  - split; [apply has_track_fold_addTrack|].
    apply added_app. cbn. unfold request_plan.
    by rewrite Hscreen, Haudio.
Qed.

Lemma requestStream_screen_with_audio_example :
  exists stream,
    outcome (requestStream Scenario.screen_with_audio)
            (mount (Some Fixture.browser)) = Returned stream
    /\ stream_id stream = stream_id Fixture.display_stream
    /\ (exists more,
          stream_tracks stream = stream_tracks Fixture.display_stream ++ more
          /\ Forall (fun t => In t (stream_tracks Fixture.user_stream)
                              /\ is_audio t = true) more)
    /\ (forall t,
          has_track stream t
          = has_track Fixture.display_stream t
            || existsb (fun u => Nat.eqb (track_id u) (track_id t))
                       (getAudioTracks Fixture.user_stream))
    /\ added (mount (Some Fixture.browser))
             (exec (requestStream Scenario.screen_with_audio)
                   (mount (Some Fixture.browser)))
       = request_plan Scenario.screen_with_audio.
Proof.
  eapply (requestStream_screen_with_audio Scenario.screen_with_audio
            (mount (Some Fixture.browser)) Fixture.browser _
            Fixture.devices);
    try reflexivity.
  vm_compute. reflexivity.
Defined.

(** X9. In a screen recording with audio, when the screen is granted and the
    microphone is refused, the acquisition fails as a whole: the status is
    failed, the error slot holds the microphone's error, the stream handle is
    left as it was, and the display stream just obtained is neither kept nor
    released: no track of it is stopped. *)
Theorem screen_capture_is_dropped_when_microphone_fails (self : Render)
    (st : St) (w : Window) (st1 : St) (md : MediaDevices)
    (display : MediaStreamConstraints -> JsError + MediaStream)
    (shown : MediaStream) (err : JsError) :
  usable_custom self = None ->
  recordScreen (args self) = true ->
  truthy (audio (mediaStreamConstraints (args self))) = true ->
  getWindow self (before_request st) = (Returned w, st1) ->
  navigator_mediaDevices w = Some md ->
  getDisplayMedia md = Some display ->
  display (mediaStreamConstraints (args self)) = inr shown ->
  getUserMedia md {| video := tc_undefined;
                     audio := audio (mediaStreamConstraints (args self)) |}
  = inl err ->
  let st' := exec (acquireMediaStream self) st in
  outcome (acquireMediaStream self) st = Returned None
  /\ status st' = failed
  /\ error st' = Some (caught err)
  /\ mediaStream st' = mediaStream st
  /\ added st st'
     = [SetStatus acquiring_media;
        CallGetDisplayMedia (mediaStreamConstraints (args self));
        CallGetUserMedia
          {| video := tc_undefined;
             audio := audio (mediaStreamConstraints (args self)) |};
        SetStatus failed].
Proof.
  intros Hc Hscreen Haudio Hw Hmd Hd Hshown Herr. cbv zeta.
  pose proof (screen_requests self (before_request st) w st1 md display shown
                Hscreen Haudio Hw Hmd Hd Hshown) as Hrun.
  cbv zeta in Hrun. rewrite Herr in Hrun.
  destruct (getWindow_cached _ _ _ _ Hw) as (_ & _ & _ & Hms).
  unfold exec, outcome. rewrite acquireMediaStream_run, Hc, Hrun. cbn.
  repeat split; try done.
  apply added_app. cbn. by rewrite <- !app_assoc.
Qed.

Lemma screen_capture_is_dropped_when_microphone_fails_example :
  let st := mount (Some Scenario.microphone_denied_browser) in
  let st' := exec (acquireMediaStream Scenario.screen_with_audio) st in
  outcome (acquireMediaStream Scenario.screen_with_audio) st = Returned None
  /\ status st' = failed
  /\ error st' = Some (caught Fixture.NotAllowedError)
  /\ mediaStream st' = mediaStream st
  /\ added st st'
     = [SetStatus acquiring_media;
        CallGetDisplayMedia {| video := tc_bool true; audio := tc_bool true |};
        CallGetUserMedia {| video := tc_undefined; audio := tc_bool true |};
        SetStatus failed].
Proof.
  eapply (screen_capture_is_dropped_when_microphone_fails
            Scenario.screen_with_audio
            (mount (Some Scenario.microphone_denied_browser))
            Scenario.microphone_denied_browser _
            Scenario.microphone_denied);
    try reflexivity.
  vm_compute. reflexivity.
Defined.

(** ** Starting a recording *)

Lemma getWindow_heap self st0 w st1 :
  getWindow self st0 = (Returned w, st1) ->
  heap st1 = heap st0 /\ mediaStream st1 = mediaStream st0
  /\ mediaChunks st1 = mediaChunks st0 /\ mediaBlob st1 = mediaBlob st0
  /\ browserSupportError st1 = browserSupportError st0
  /\ isAudioMuted st1 = isAudioMuted st0.
Proof.
  unfold getWindow. run_monad.
  repeat (case_match; simplify_eq; cbn in * ); by intros [= <- <-].
Qed.

Lemma requestStream_frame_more self st :
  let st' := (requestStream self st).2 in
  activeMediaRecorder st' = activeMediaRecorder st
  /\ isAudioMuted st' = isAudioMuted st
  /\ window st' = window st.
Proof.
  unfold requestStream, getWindow, mediaDevices_of,
    call_getDisplayMedia, call_getUserMedia, await.
  run_monad.
  repeat (case_match; simplify_eq; cbn in * ); done.
Qed.

(** What [acquireMediaStream] leaves alone. *)
Lemma acquireMediaStream_frame self st :
  let st' := (acquireMediaStream self st).2 in
  heap st' = heap st /\ mediaRecorder st' = mediaRecorder st
  /\ mediaChunks st' = mediaChunks st /\ mediaBlob st' = mediaBlob st
  /\ browserSupportError st' = browserSupportError st
  /\ activeMediaRecorder st' = activeMediaRecorder st
  /\ isAudioMuted st' = isAudioMuted st.
Proof.
  cbv zeta. rewrite acquireMediaStream_run.
  destruct (usable_custom self); [done|].
  destruct (requestStream_frame self (before_request st))
    as (_ & _ & _ & Hc & Hm & Hh & Hb & Hs).
  destruct (requestStream_frame_more self (before_request st))
    as (Ha & Hi & _).
  by destruct (requestStream self _) as [[s|e] st2].
Qed.

Lemma obtain_stream_frame self st :
  let st' := (obtain_stream self st).2 in
  heap st' = heap st /\ mediaRecorder st' = mediaRecorder st
  /\ mediaBlob st' = mediaBlob st
  /\ browserSupportError st' = browserSupportError st
  /\ activeMediaRecorder st' = activeMediaRecorder st
  /\ isAudioMuted st' = isAudioMuted st.
Proof.
  cbv zeta. unfold obtain_stream. unfold_monad.
  destruct (notnull (error st)); cbn -[acquireMediaStream];
    (destruct (mediaStream st); cbn -[acquireMediaStream];
     [ done | ]);
    match goal with
    | |- context [acquireMediaStream self ?x] =>
        destruct (acquireMediaStream_frame self x)
          as (Hh & Hm & _ & Hb & Hs & Ha & Hi);
        destruct (acquireMediaStream self x) as [[o|e] st2]; cbn in *; done
    end.
Qed.

(** The stream [obtain_stream] yields is the one held afterwards. *)
Lemma obtain_stream_held self st s st0 :
  obtain_stream self st = (Returned (Some s), st0) ->
  mediaStream st0 = Some s.
Proof.
  unfold obtain_stream. unfold_monad.
  destruct (notnull (error st)); cbn -[acquireMediaStream];
    (destruct (mediaStream _) as [s'|] eqn:Es; cbn -[acquireMediaStream];
     [ intros [= <- <-]; cbn; by rewrite ?Es | ]);
    rewrite acquireMediaStream_run;
    (destruct (usable_custom self); cbn; [by intros [= <- <-]|]);
    match goal with
    | |- context [requestStream self ?x] =>
        destruct (requestStream self x) as [[s2|e2] st2]; cbn;
          [by intros [= <- <-] | by intros [=]]
    end.
Qed.






(** X11. A start whose acquisition fails.  With no stream held and no usable
    custom stream, when the browser's answer to the request is an error,
    [startRecording] returns normally: the status is failed, the error slot
    holds the error, the chunk collection is empty, no recorder is
    constructed, handle and recorder objects are as before, and none of the
    caller's callbacks runs. *)
Theorem startRecording_acquisition_failure (self : Render)
    (timeSlice : option nat) (st : St) (err : JsError) (st2 : St) :
  mediaStream st = None ->
  usable_custom self = None ->
  requestStream self (before_request st) = (Thrown err, st2) ->
  let st' := exec (startRecording self timeSlice) st in
  outcome (startRecording self timeSlice) st = Returned tt
  /\ status st' = failed
  /\ error st' = Some (caught err)
  /\ mediaStream st' = None
  /\ mediaRecorder st' = mediaRecorder st
  /\ heap st' = heap st
  /\ mediaChunks st' = []
  /\ Forall (fun e => is_callback e = false) (added st st').
Proof.
  intros Hs Hc Hreq. cbv zeta.
  change (before_request st) with (before_request (set_error None st))
    in Hreq.
  unfold exec, outcome. rewrite startRecording_forgets_error.
  rewrite startRecording_split.
  assert (Ho : obtain_stream self (set_error None st)
               = (Returned None,
                  set_mediaChunks []
                    (set_trace (trace st2 ++ [SetStatus failed])
                       (set_status failed
                          (set_error (Some (caught err)) st2))))).
  { unfold obtain_stream. unfold_monad. cbn -[acquireMediaStream].
    rewrite Hs. rewrite acquireMediaStream_run, Hc.
    change (set_error None (set_error None st)) with (set_error None st).
    by rewrite Hreq. }
  rewrite Ho. cbn.
  destruct (requestStream_frame self (before_request (set_error None st)))
    as (_ & _ & Hms & _ & Hm & Hh & _).
  destruct (requestStream_trace self (before_request (set_error None st)))
    as (l & Hl & rest & Hplan).
  rewrite Hreq in Hms, Hm, Hh, Hl. cbn in Hms, Hm, Hh, Hl.
  repeat split; try done; try congruence.
  rewrite (added_app _ _
             (SetStatus acquiring_media :: l ++ [SetStatus failed])).
  - constructor; [done|]. apply Forall_app. split.
    + by eapply request_plan_no_callback.
    + by repeat constructor.
  - cbn. rewrite Hl. by rewrite <- !app_assoc.
Qed.

Lemma startRecording_acquisition_failure_example :
  let st := mount (Some Fixture.denying_browser) in
  let st' := exec (startRecording (Fixture.render 0) None) st in
  outcome (startRecording (Fixture.render 0) None) st = Returned tt
  /\ status st' = failed
  /\ error st' = Some (caught Fixture.NotAllowedError)
  /\ mediaStream st' = None
  /\ mediaRecorder st' = mediaRecorder st
  /\ heap st' = heap st
  /\ mediaChunks st' = []
  /\ Forall (fun e => is_callback e = false) (added st st').
Proof.
  eapply (startRecording_acquisition_failure (Fixture.render 0) None
            (mount (Some Fixture.denying_browser))).
  - reflexivity.
  - reflexivity.
  - vm_compute. reflexivity.
Defined.

(** [startRecording] only ever adds a recorder to those the browser holds. *)
Lemma startRecording_heap self timeSlice st :
  exists new,
    heap (exec (startRecording self timeSlice) st) = heap st ++ new
    /\ length new <= 1.
Proof.
  unfold exec. rewrite startRecording_split.
  destruct (obtain_stream_frame self st) as (Hh & _).
  destruct (obtain_stream self st) as [[[s|]|e] st0]; cbn in *.
  - destruct (getWindow self st0) as [[w|e] st1] eqn:Hw.
    + destruct (getWindow_frame _ _ _ _ Hw) as (_ & _ & _ & Hh1).
      destruct (MediaRecorder w) as [cls|] eqn:Hcls.
      * rewrite (record_run _ _ _ _ _ _ _ Hw Hcls).
        destruct (construct cls s _); cbn.
        { exists []. rewrite app_nil_r. split; [congruence|cbn; lia]. }
        destruct (start cls s _ timeSlice); cbn; eexists;
          (split; [rewrite Hh1, Hh; reflexivity | cbn; lia]).
      * unfold record. rewrite (bind_run _ _ _ _ _ Hw).
        unfold new_MediaRecorder. rewrite Hcls. cbn.
        exists []. rewrite app_nil_r. split; [congruence|cbn; lia].
    + unfold record. unfold bind at 1. rewrite Hw. cbn.
      exists []. rewrite app_nil_r. split; [|cbn; lia].
      revert Hw. unfold getWindow. run_monad.
      repeat (case_match; simplify_eq; cbn in * ); intros [= <- <-]; done.
  - exists []. rewrite app_nil_r. split; [done|cbn; lia].
  - exists []. rewrite app_nil_r. split; [done|cbn; lia].
Qed.

Lemma startRecording_handle self timeSlice st :
  let st' := exec (startRecording self timeSlice) st in
  mediaRecorder st' = mediaRecorder st
  \/ mediaRecorder st' = Some (length (heap st)).
Proof.
  cbv zeta. unfold exec. rewrite startRecording_split.
  destruct (obtain_stream_frame self st) as (Hh & Hm & _).
  destruct (obtain_stream self st) as [[[s|]|e] st0]; cbn in *;
    [|by left|by left].
  destruct (getWindow self st0) as [[w|e] st1] eqn:Hw.
  - destruct (getWindow_frame _ _ _ _ Hw) as (_ & _ & _ & Hh1).
    assert (Hm1 : mediaRecorder st1 = mediaRecorder st0).
    { revert Hw. unfold getWindow. run_monad.
      repeat (case_match; simplify_eq; cbn in * ); by intros [= <- <-]. }
    destruct (MediaRecorder w) as [cls|] eqn:Hcls.
    + rewrite (record_run _ _ _ _ _ _ _ Hw Hcls).
      destruct (construct cls s _); cbn; [left; congruence|].
      destruct (start cls s _ timeSlice); cbn; right; congruence.
    + unfold record. rewrite (bind_run _ _ _ _ _ Hw).
      unfold new_MediaRecorder. rewrite Hcls. cbn. left. congruence.
  - unfold record. unfold bind at 1. rewrite Hw. cbn. left.
    revert Hw. unfold getWindow. run_monad.
    repeat (case_match; simplify_eq; cbn in * ); intros [= <- <-]; done.
Qed.

(** X12. Starting again while a recorder is held does not end the recording
    in progress: [startRecording] never stops or pauses a recorder and never
    stops a track, the recorder held before is left exactly as it was, still
    running with its listeners, and the handle either stays or moves to a
    newly constructed recorder, after which the earlier one can no longer be
    reached through the hook. *)
Theorem startRecording_leaves_running_recorder (self : Render)
    (timeSlice : option nat) (st : St) (held : nat) (r : MediaRecorderObj) :
  mediaRecorder st = Some held ->
  heap st !! held = Some r ->
  let st' := exec (startRecording self timeSlice) st in
  heap st' !! held = Some r
  /\ (mediaRecorder st' = Some held
      \/ (mediaRecorder st' = Some (length (heap st))
          /\ length (heap st) <> held))
  /\ Forall (fun e => is_stopping e = false) (added st st').
Proof.
  intros Hm Hh. cbv zeta.
  destruct (startRecording_heap self timeSlice st) as (new & Hnew & _).
  pose proof (lookup_lt_Some _ _ _ Hh) as Hlt.
  split; [|split].
  - rewrite Hnew, lookup_app_l; done.
  - destruct (startRecording_handle self timeSlice st) as [H|H];
      [left; congruence | right; split; [done|lia]].
  - destruct (step_emits self (call_startRecording timeSlice) st)
      as (l & Hl & Hall).
    cbn [step] in Hl. rewrite (added_app _ _ _ Hl).
    eapply Forall_impl; [exact Hall|]. intros e He.
    by destruct e as [[]| | | | | | | | | | | | |].
Qed.

Lemma startRecording_leaves_running_recorder_example :
  let st' := exec (startRecording (Fixture.render 1) None) Fixture.started in
  heap st' !! 0 = Some Scenario.running
  /\ (mediaRecorder st' = Some 0
      \/ (mediaRecorder st' = Some (length (heap Fixture.started))
          /\ length (heap Fixture.started) <> 0))
  /\ Forall (fun e => is_stopping e = false) (added Fixture.started st').
Proof.
  apply (startRecording_leaves_running_recorder (Fixture.render 1) None
           Fixture.started 0 Scenario.running);
    vm_compute; reflexivity.
Defined.

(** ** Pausing and resuming *)

Lemma pauseRecording_run self st rec r :
  mediaRecorder st = Some rec ->
  heap st !! rec = Some r ->
  rec_state r = rs_recording ->
  pauseRecording self st
  = (Returned tt,
     set_trace (trace st ++ [CallPause rec; SetStatus paused])
       (set_status paused
          (set_heap (alter (set_rec_state rs_paused) rec (heap st)) st))).
Proof.
  intros Hm Hh Hs. unfold pauseRecording, rec_pause, is_state.
  run_monad. rewrite Hm. cbn. rewrite Hh. cbn. rewrite Hs. cbn.
  rewrite Hh. cbn. rewrite Hs. unfold_setters. cbn.
  by rewrite <- app_assoc.
Qed.

Lemma resumeRecording_run self st rec r :
  mediaRecorder st = Some rec ->
  heap st !! rec = Some r ->
  rec_state r = rs_paused ->
  resumeRecording self st
  = (Returned tt,
     set_trace (trace st ++ [CallResume rec; SetStatus recording])
       (set_status recording
          (set_heap (alter (set_rec_state rs_recording) rec (heap st)) st))).
Proof.
  intros Hm Hh Hs. unfold resumeRecording, rec_resume, is_state.
  run_monad. rewrite Hm. cbn. rewrite Hh. cbn. rewrite Hs. cbn.
  rewrite Hh. cbn. rewrite Hs. unfold_setters. cbn.
  by rewrite <- app_assoc.
Qed.

(** X13. Pausing a running recorder and resuming it, through any two renders,
    brings every recorder object back to what it was: the status goes to
    paused and back to recording, the recorder to state paused and back, its
    listeners and the chunk collection are untouched, and the browser sees
    exactly one [pause] and one [resume]. *)
Theorem pause_then_resume (self other : Render) (st : St) (rec : nat)
    (r : MediaRecorderObj) :
  mediaRecorder st = Some rec ->
  heap st !! rec = Some r ->
  rec_state r = rs_recording ->
  let paused_st := exec (pauseRecording self) st in
  let resumed := exec (resumeRecording other) paused_st in
  status paused_st = paused
  /\ rec_state <$> heap paused_st !! rec = Some rs_paused
  /\ status resumed = recording
  /\ heap resumed = heap st
  /\ mediaRecorder resumed = Some rec
  /\ mediaChunks resumed = mediaChunks st
  /\ added st resumed
     = [CallPause rec; SetStatus paused; CallResume rec; SetStatus recording].
Proof.
  intros Hm Hh Hs. cbv zeta. unfold exec.
  rewrite (pauseRecording_run _ _ _ _ Hm Hh Hs). cbn [snd].
  rewrite (resumeRecording_run _ _ rec (set_rec_state rs_paused r));
    [ | exact Hm | cbn; by rewrite list_lookup_alter_eq, Hh | done ].
  cbn. rewrite list_lookup_alter_eq, Hh. cbn.
  repeat split; try done.
  - rewrite list_alter_alter_eq.
    rewrite (list_alter_ext _ id _ (heap st) rec); [| |done].
    + by apply list_alter_id.
    + intros x Hx. rewrite Hh in Hx. injection Hx as <-.
      destruct r; cbn in *. by rewrite Hs.
  - apply added_app. cbn. by rewrite <- app_assoc.
Qed.

Lemma pause_then_resume_example :
  let paused_st := exec (pauseRecording (Fixture.render 1)) Fixture.started in
  let resumed := exec (resumeRecording (Fixture.render 2)) paused_st in
  status paused_st = paused
  /\ rec_state <$> heap paused_st !! 0 = Some rs_paused
  /\ status resumed = recording
  /\ heap resumed = heap Fixture.started
  /\ mediaRecorder resumed = Some 0
  /\ mediaChunks resumed = mediaChunks Fixture.started
  /\ added Fixture.started resumed
     = [CallPause 0; SetStatus paused; CallResume 0; SetStatus recording].
Proof.
  apply (pause_then_resume (Fixture.render 1) (Fixture.render 2)
           Fixture.started 0 Scenario.running);
    vm_compute; reflexivity.
Defined.

(** X14. The guards of [pauseRecording] and [resumeRecording] read the
    recorder's own state, not the hook's status: pausing a recorder that is
    not recording and resuming one that is not paused do nothing at all,
    whatever the status says; in particular a second pause and a resume
    without a pause are no-ops. *)
Theorem pause_resume_guards (self : Render) (st : St) (rec : nat)
    (r : MediaRecorderObj) :
  mediaRecorder st = Some rec ->
  heap st !! rec = Some r ->
  (rec_state r <> rs_recording -> pauseRecording self st = (Returned tt, st))
  /\ (rec_state r <> rs_paused ->
        resumeRecording self st = (Returned tt, st)).
Proof.
  intros Hm Hh. split; intros Hs.
  - unfold pauseRecording, is_state. run_monad. rewrite Hm. cbn.
    rewrite Hh. cbn. by destruct (rec_state r).
  - unfold resumeRecording, is_state. run_monad. rewrite Hm. cbn.
    rewrite Hh. cbn. by destruct (rec_state r).
Qed.

Lemma pause_resume_guards_example :
  let st := exec (pauseRecording (Fixture.render 1)) Fixture.started in
  let r := set_rec_state rs_paused Scenario.running in
  (rec_state r <> rs_recording ->
   pauseRecording (Fixture.render 2) st = (Returned tt, st))
  /\ (rec_state r <> rs_paused ->
      resumeRecording (Fixture.render 2) st = (Returned tt, st)).
Proof.
  apply (pause_resume_guards (Fixture.render 2)
           (exec (pauseRecording (Fixture.render 1)) Fixture.started) 0
           (set_rec_state rs_paused Scenario.running));
    vm_compute; reflexivity.
Defined.

(** ** Muting *)

Lemma muteAudio_run self mute st :
  muteAudio self mute st
  = (Returned tt,
     set_isAudioMuted mute
       (set_trace
          (trace st ++ map (fun t => CallTrackEnabled t (negb mute))
                           (held_audio_tracks st)) st)).
Proof.
  unfold muteAudio, held_audio_tracks. unfold bind at 1. unfold bind at 1.
  unfold read.
  destruct (mediaStream st) as [s|] eqn:Hs.
  - by rewrite (forEach_emit (fun t => CallTrackEnabled t (negb mute))).
  - cbn. rewrite app_nil_r. by destruct st.
Qed.

(** X15. [muteAudio] sets [enabled] to the negation of its argument on each
    audio track of the held stream, once and in order, and on nothing else:
    video tracks are not touched, and with no stream held no track is
    touched.  The flag [isAudioMuted] is set to the argument in every case,
    also when there was nothing to mute. *)
Theorem muteAudio_spec (self : Render) (mute : bool) (st : St) :
  let st' := exec (muteAudio self mute) st in
  outcome (muteAudio self mute) st = Returned tt
  /\ isAudioMuted st' = mute
  /\ added st st'
     = map (fun t => CallTrackEnabled t (negb mute)) (held_audio_tracks st)
  /\ (forall t, In t (held_audio_tracks st)
        <-> exists s, mediaStream st = Some s
                      /\ In t (getTracks s) /\ is_audio t = true)
  /\ (mediaStream st = None -> added st st' = []).
Proof.
  cbv zeta. unfold exec, outcome. rewrite muteAudio_run. cbn.
  repeat split; try done.
  - by apply added_app.
  - unfold held_audio_tracks. destruct (mediaStream st) as [s|]; [|done].
    intros Ht. exists s. unfold getAudioTracks in Ht.
    by apply List.filter_In in Ht.
  - intros (s & Hs & Hin & Ha). unfold held_audio_tracks. rewrite Hs.
    by apply List.filter_In.
  - intros Hs. apply added_app. unfold held_audio_tracks. by rewrite Hs.
Qed.

(** X16. The mute flag is applied only by [muteAudio] itself.  A run without
    a [muteAudio] call keeps [isAudioMuted] and never sets [enabled] on any
    track: a stream acquired after muting starts with its tracks as the
    browser gave them, while the flag still says muted. *)
Theorem mute_flag_is_not_applied_later (calls : list (Render * Call))
    (st : St) :
  Forall (fun rc => is_muteAudio rc.2 = false) calls ->
  let st' := run calls st in
  isAudioMuted st' = isAudioMuted st
  /\ Forall (fun e => is_track_enabled e = false) (added st st').
Proof.
  intros Hall. cbv zeta. split.
  - apply (run_frame cell_isAudioMuted).
    eapply Forall_impl; [exact Hall|]. intros [self c] H. cbn in *.
    by destruct c as [| | | | | |mute| | |? []].
  - destruct (run_emits calls st) as (l & Hl & Hf).
    rewrite (added_app _ _ _ Hl). apply Forall_forall. intros e He.
    rewrite Forall_forall in Hf.
    destruct (Hf e He) as ([self c] & Hin & Hc).
    rewrite Forall_forall in Hall.
    specialize (Hall (self, c) (proj2 (list_elem_of_In _ _) Hin)).
    cbn in *. destruct e; try done.
    by destruct c as [| | | | | |mute| | |? []].
Qed.

Lemma mute_flag_is_not_applied_later_example :
  let st := exec (muteAudio (Fixture.render 1) true) Fixture.started in
  let st' := run [(Fixture.render 1, call_stopRecording);
                  (Fixture.render 1, call_event 0 StopEvent);
                  (Fixture.render 2, call_startRecording None)] st in
  isAudioMuted st' = isAudioMuted st
  /\ Forall (fun e => is_track_enabled e = false) (added st st').
Proof.
  apply (mute_flag_is_not_applied_later
           [(Fixture.render 1, call_stopRecording);
            (Fixture.render 1, call_event 0 StopEvent);
            (Fixture.render 2, call_startRecording None)]).
  repeat constructor.
Defined.

(** ** The capability check *)

Lemma unsupported_keys_spec supported keys k :
  In k (unsupported_keys supported keys)
  <-> In k keys /\ supported !! k <> Some true.
Proof.
  unfold unsupported_keys, constraintIsSupported. rewrite List.filter_In.
  destruct (supported !! k) as [[|]|]; cbn; intuition congruence.
Qed.

Lemma ensureConstraintsSupported_None supported keys :
  ensureConstraintsSupported supported keys = None
  <-> forall k, In k keys -> supported !! k = Some true.
Proof.
  unfold ensureConstraintsSupported. fold (unsupported_keys supported keys).
  pose proof (unsupported_keys_spec supported keys) as Hin.
  destruct (unsupported_keys supported keys) as [|k0 ks] eqn:E; cbn.
  - split; [|done]. intros _ k Hk.
    destruct (supported !! k) as [[|]|] eqn:Ek; [done| |];
      exfalso; apply (proj2 (Hin k)); split; congruence.
  - split; [done|]. intros Hall. exfalso.
    destruct (proj1 (Hin k0)) as [Hk Hn]; [by left|].
    apply Hn. by apply Hall.
Qed.


Lemma constraints_error_accepts supported c :
  (forall keys k, c = tc_object keys -> In k keys ->
                  supported !! k = Some true) ->
  constraints_error supported c = None.
Proof.
  intros H. unfold constraints_error. destruct c as [|b|keys]; try done. cbn.
  destruct (ensureConstraintsSupported_None supported keys) as [_ Hn].
  rewrite Hn; [done|]. intros k Hk. by eapply H.
Qed.

(** X18. The capability check accepts every configuration the browser can
    serve: when the recorder class exists, screen capture exists if it is
    asked for, every key of a constraint object is supported and a requested
    MIME type is supported, the check returns without recording an error;
    all it may write is the cached window. *)
Theorem supportCheck_accepts (self : Render) (st : St) (w : Window)
    (st1 : St) (md : MediaDevices) :
  getWindow self st = (Returned w, st1) ->
  navigator_mediaDevices w = Some md ->
  supported_request self st w md ->
  supportCheck self st = (Returned tt, st1)
  /\ browserSupportError st1 = browserSupportError st
  /\ trace st1 = trace st.
Proof.
  intros Hw Hmd (Hrec & Hscreen & (sup & Hsup & Hkeys) & Hmime).
  destruct (getWindow_cached _ _ _ _ Hw) as (Hw1 & Hg & Ht & Hs).
  destruct (getWindow_heap _ _ _ _ Hw) as (_ & _ & _ & _ & Hb & _).
  split; [|by split].
  unfold supportCheck. rewrite (bind_run _ _ _ _ _ Hw).
  destruct Hrec as [cls0 Hcls0]. rewrite Hcls0.
  assert (Hsc :
    (if recordScreen (args self)
     then w <- getWindow self ;;
          md <- mediaDevices_of w ;;
          ret (negb (notnull (getDisplayMedia md)))
     else ret false) st1 = (Returned false, st1)).
  { destruct (recordScreen (args self)); [|done].
    rewrite (bind_run _ _ _ _ _ Hw1). unfold mediaDevices_of. rewrite Hmd.
    destruct (Hscreen eq_refl) as [f Hf]. unfold bind, ret. by rewrite Hf. }
  rewrite (bind_run _ _ _ _ _ Hsc).
  rewrite (bind_run _ _ _ _ _ Hw1), Hmd, Hsup.
  rewrite !constraints_error_accepts by (intros; eapply Hkeys; eauto).
  destruct (mediaRecorderOptions (args self) ≫= mimeType) as [m|] eqn:Hm;
    [|done].
  destruct m as [|a m]; [done|]. cbn [nonempty default].
  destruct (Hmime _ eq_refl) as (cls & Hglobal & Hyes); [done|].
  assert (Hcall : global_isTypeSupported (String a m) st1
                  = (Returned true, st1)).
  { unfold global_isTypeSupported. unfold bind, read.
    rewrite Hg, Hglobal. unfold ret. by rewrite Hyes. }
  by rewrite (bind_run _ _ _ _ _ Hcall).
Qed.

Lemma supportCheck_accepts_example :
  let st := mount (Some Fixture.browser) in
  let st1 := exec (getWindow Scenario.served_render) st in
  supportCheck Scenario.served_render st = (Returned tt, st1)
  /\ browserSupportError st1 = browserSupportError st
  /\ trace st1 = trace st.
Proof.
  apply (supportCheck_accepts Scenario.served_render
           (mount (Some Fixture.browser)) Fixture.browser
           (exec (getWindow Scenario.served_render)
                 (mount (Some Fixture.browser)))
           Fixture.devices).
  - reflexivity.
  - reflexivity.
  - split; [by eexists|]. split; [by eexists|]. split.
    + exists Fixture.supported. split; [reflexivity|].
      intros keys k [H|H] Hk; cbn in H; [|discriminate H].
      injection H as <-.
      destruct Hk as [<-|[<-|[]]]; vm_compute; reflexivity.
    + intros m Hm _. cbn in Hm. injection Hm as <-.
      exists Fixture.recorder_class. split; reflexivity.
Defined.

(** ** Whole runs *)

Lemma supportCheck_keeps_error self :
  keeps support_error_stays (supportCheck self).
Proof.
  unfold supportCheck, getWindow, mediaDevices_of, global_isTypeSupported.
  repeat keeps_step ltac:(intros ? ?; cbn; by eauto).
Qed.

(** X19. A browser-support error, once recorded, is never cleared: no call,
    event or later capability check sets [browserSupportError] back to null,
    not even a check that is run again through a render whose configuration
    the browser can serve. *)
Theorem support_error_is_never_cleared (calls : list (Render * Call))
    (st : St) (msg : string) :
  browserSupportError st = Some msg ->
  is_Some (browserSupportError (run calls st)).
Proof.
  intros H.
  assert (Hrun : support_error_stays st (run calls st)).
  { apply (run_keeps (fun _ => True)); [|by apply Forall_true].
    intros self c s _.
    destruct (may_change c cell_browserSupportError) eqn:E.
    - destruct c as [| | | | | | | | |? []]; try discriminate E.
      apply supportCheck_keeps_error.
    - pose proof (step_frame self c cell_browserSupportError s E) as Hf.
      cbn in Hf. unfold support_error_stays. by rewrite Hf. }
  apply Hrun. by rewrite H.
Qed.

Lemma support_error_is_never_cleared_example :
  is_Some
    (browserSupportError
       (run [(Scenario.served_render, call_supportCheck);
             (Scenario.served_render, call_startRecording None);
             (Scenario.served_render, call_stopRecording)]
          (exec (supportCheck (Fixture.screen_render false))
                (mount (Some Fixture.browser))))).
Proof.
  eapply (support_error_is_never_cleared
            [(Scenario.served_render, call_supportCheck);
             (Scenario.served_render, call_startRecording None);
             (Scenario.served_render, call_stopRecording)]).
  vm_compute. reflexivity.
Defined.

Lemma dispatchEvent_chunks_grow rec ev :
  keeps chunks_grow (dispatchEvent rec ev).
Proof.
  unfold dispatchEvent, handleEvent, handleDataAvailable, handleStop,
    handleError.
  repeat keeps_step ltac:(intros ?; unfold chunks_grow; cbn;
                          first [ reflexivity | by apply prefix_app_r ]).
Qed.

(** X20. Collected chunks are dropped by [startRecording] and by nothing
    else: over a run without a start the collection only grows at its end.
    Stopping, the stop notification, [clearMediaBlob] and releasing the stream
    leave the chunks in place, so a second stop notification assembles the
    same chunks again. *)
Theorem chunks_survive_until_next_start (calls : list (Render * Call))
    (st : St) :
  Forall (fun rc => is_startRecording rc.2 = false) calls ->
  mediaChunks st `prefix_of` mediaChunks (run calls st).
Proof.
  apply (run_keeps (R := chunks_grow)
           (fun c => is_startRecording c = false)).
  intros self c s Hc.
  destruct (may_change c cell_mediaChunks) eqn:E.
  - destruct c as [| | | | | | | | |? []]; try discriminate E;
      try discriminate Hc.
    apply dispatchEvent_chunks_grow.
  - pose proof (step_frame self c cell_mediaChunks s E) as Hf.
    cbn in Hf. unfold chunks_grow. by rewrite Hf.
Qed.

Lemma chunks_survive_until_next_start_example :
  mediaChunks Fixture.recorded
  `prefix_of`
  mediaChunks (run [(Fixture.render 1, call_stopRecording);
                    (Fixture.render 1, call_event 0 StopEvent);
                    (Fixture.render 2, call_clearMediaBlob);
                    (Fixture.render 2, call_releaseMediaStream)]
                 Fixture.recorded).
Proof.
  apply (chunks_survive_until_next_start
           [(Fixture.render 1, call_stopRecording);
            (Fixture.render 1, call_event 0 StopEvent);
            (Fixture.render 2, call_clearMediaBlob);
            (Fixture.render 2, call_releaseMediaStream)]).
  repeat constructor.
Defined.

(** ** What errors leave behind *)

Lemma forEach_handleEvent_heap (ls : list Listener) ev st :
  heap (forEach ls (fun l => handleEvent (l_closure l) ev) st).2 = heap st.
Proof.
  revert st. induction ls as [|l ls IH]; intros st; [done|].
  cbn [forEach]. unfold bind.
  destruct (handleEvent_mediaRecorder (l_closure l) ev st)
    as (_ & Hh & r & Hr).
  destruct (handleEvent (l_closure l) ev st) as [[u|e] st1]; cbn in *;
    [|done].
  by rewrite IH.
Qed.

Lemma dispatchEvent_heap rec ev st :
  heap (exec (dispatchEvent rec ev) st) = heap st.
Proof.
  unfold exec, dispatchEvent, recorder. unfold bind, read.
  destruct (heap st !! rec) as [r|]; [|done].
  apply forEach_handleEvent_heap.
Qed.

(** The handlers of an error event leave the error and the status idle. *)
Lemma forEach_handleError (ls : list Listener) (e : JsError) st :
  ls <> [] ->
  let st' := (forEach ls (fun l => handleEvent (l_closure l) (ErrorEvent e))
                st).2 in
  status st' = idle /\ error st' = Some (error_event e).
Proof.
  cbv zeta. revert st. induction ls as [|l ls IH]; intros st Hne; [done|].
  cbn [forEach handleEvent]. unfold bind.
  assert (Hone : exists st1,
            handleError (l_closure l) e st = (Returned tt, st1)
            /\ status st1 = idle /\ error st1 = Some (error_event e)).
  { unfold handleError. run_monad.
    destruct (onError (args (l_closure l))); by eexists. }
  destruct Hone as (st1 & -> & Hs & He).
  destruct ls as [|l2 ls]; [done|]. by apply IH.
Qed.

(** X23. An error event of the recorder releases nothing.  Its handlers
    leave the recorder handle, every recorder object, the stream and the
    collected chunks as they were, and neither stop the recorder nor a track.
    When a handler is registered the status afterwards is idle and the error
    slot holds the event: the status says idle while the stream is still live
    and the recorder still held. *)
Theorem error_event_releases_nothing (rec : nat) (e : JsError) (st : St) :
  let st' := exec (dispatchEvent rec (ErrorEvent e)) st in
  heap st' = heap st
  /\ mediaRecorder st' = mediaRecorder st
  /\ mediaStream st' = mediaStream st
  /\ liveStream st' = liveStream st
  /\ mediaChunks st' = mediaChunks st
  /\ Forall (fun x => is_stopping x = false) (added st st')
  /\ (forall r l,
        heap st !! rec = Some r ->
        In l (rec_listeners r) -> l_type l = ev_error ->
        status st' = idle /\ error st' = Some (error_event e)).
Proof.
  cbv zeta.
  pose proof (step_frame (Fixture.render 0) (call_event rec (ErrorEvent e))
                cell_mediaStream st eq_refl) as Hs.
  pose proof (step_frame (Fixture.render 0) (call_event rec (ErrorEvent e))
                cell_mediaChunks st eq_refl) as Hc.
  cbn in Hs, Hc.
  split; [apply dispatchEvent_heap|].
  split; [apply dispatchEvent_mediaRecorder|].
  split; [done|]. split; [unfold liveStream; by rewrite Hs|].
  split; [done|]. split.
  - destruct (step_emits (Fixture.render 0) (call_event rec (ErrorEvent e))
                st) as (l & Hl & Hall).
    cbn [step] in Hl. rewrite (added_app _ _ _ Hl).
    eapply Forall_impl; [exact Hall|]. intros x Hx.
    by destruct x as [[]| | | | | | | | | | | | |].
  - intros r l Hr Hin Hty.
    unfold exec, dispatchEvent, recorder, bind, read.
    rewrite Hr. apply forEach_handleError.
    intros Hnil.
    assert (Hf : In l (List.filter
                         (fun l0 => EventType_eqb (l_type l0)
                                      (event_type (ErrorEvent e)))
                         (rec_listeners r))).
    { apply List.filter_In. split; [done|]. by rewrite Hty. }
    by rewrite Hnil in Hf.
Qed.

(** X24. A start that fails at [start] leaves everything it set up: the new
    recorder stays in the handle and in [activeMediaRecorder], inactive and
    with the three listeners of this render attached, and the stream stays
    held and live; nothing is stopped.  The status is idle although stream
    and recorder are still there. *)
Theorem failed_start_keeps_stream_and_recorder (self : Render)
    (timeSlice : option nat) (st : St) (s : MediaStream) (st0 : St)
    (w : Window) (st1 : St) (cls : MediaRecorderClass) (err : JsError) :
  obtain_stream self st = (Returned (Some s), st0) ->
  getWindow self st0 = (Returned w, st1) ->
  MediaRecorder w = Some cls ->
  construct cls s (mediaRecorderOptions (args self)) = None ->
  start cls s (mediaRecorderOptions (args self)) timeSlice = Some err ->
  let st' := exec (startRecording self timeSlice) st in
  status st' = idle
  /\ mediaStream st' = Some s
  /\ liveStream st' = Some (getTracks s)
  /\ mediaRecorder st' = Some (length (heap st))
  /\ activeMediaRecorder st' = Some (length (heap st))
  /\ heap st' = heap st ++ [fresh_recorder self s cls]
  /\ Forall (fun e => is_stopping e = false) (added st st').
Proof.
  intros Ho Hw Hcls Hnew Hstart. cbv zeta.
  destruct (step_emits self (call_startRecording timeSlice) st)
    as (l & Hl & Hall).
  cbn [step] in Hl. rewrite (added_app _ _ _ Hl).
  assert (Hstop : Forall (fun e => is_stopping e = false) l).
  { eapply Forall_impl; [exact Hall|]. intros x Hx.
    by destruct x as [[]| | | | | | | | | | | | |]. }
  clear Hl Hall.
  destruct (obtain_stream_frame self st) as (Hh0 & _).
  pose proof (obtain_stream_held _ _ _ _ Ho) as Hs0.
  rewrite Ho in Hh0. cbn in Hh0.
  destruct (getWindow_frame _ _ _ _ Hw) as (_ & _ & _ & Hh).
  destruct (getWindow_heap _ _ _ _ Hw) as (_ & Hs & _).
  unfold exec, liveStream.
  rewrite startRecording_split, Ho, (record_run _ _ _ _ _ _ _ Hw Hcls).
  rewrite Hnew, Hstart. cbn. rewrite Hh, Hh0, Hs, Hs0. done.
Qed.

Lemma failed_start_keeps_stream_and_recorder_example :
  let st := mount (Some Fixture.failing_browser) in
  let st' := exec (startRecording (Fixture.render 0) None) st in
  status st' = idle
  /\ mediaStream st' = Some Fixture.user_stream
  /\ liveStream st' = Some (getTracks Fixture.user_stream)
  /\ mediaRecorder st' = Some (length (heap st))
  /\ activeMediaRecorder st' = Some (length (heap st))
  /\ heap st' = heap st ++ [fresh_recorder (Fixture.render 0)
                              Fixture.user_stream Fixture.failing_class]
  /\ Forall (fun e => is_stopping e = false) (added st st').
Proof.
  apply (failed_start_keeps_stream_and_recorder (Fixture.render 0) None
           (mount (Some Fixture.failing_browser)) Fixture.user_stream
           (exec (obtain_stream (Fixture.render 0))
                 (mount (Some Fixture.failing_browser)))
           Fixture.failing_browser
           (exec (obtain_stream (Fixture.render 0))
                 (mount (Some Fixture.failing_browser)))
           Fixture.failing_class Fixture.NotSupportedError);
    vm_compute; reflexivity.
Defined.

(** ** Starting with a stream already held *)

Lemma record_emits (K : Effect -> bool) self timeSlice s :
  (forall s', K (CallNewMediaRecorder s') = true) ->
  (forall rec ts, K (CallStart rec ts) = true) ->
  K (SetStatus recording) = true -> K (SetStatus idle) = true ->
  K OnStart = true -> (forall e, K (OnError e) = true) ->
  emits_only K (record self timeSlice s).
Proof.
  intros. unfold record, new_MediaRecorder, addEventListener, rec_start,
    handleTryCatchStart.
  repeat first [ apply getWindow_emits | apply emits_emit; by auto
               | footprint_step ].
Qed.

Lemma record_keeps_mediaStream self timeSlice s :
  keeps (same_cell cell_mediaStream) (record self timeSlice s).
Proof.
  unfold record, new_MediaRecorder, addEventListener, rec_start,
    handleTryCatchStart.
  repeat first [ apply getWindow_keeps | same_cell_step ].
Qed.

(** X25. [startRecording] records the stream that is held.  With a stream
    in the handle it makes no request to the browser and writes none of the
    acquisition statuses, the stream stays the held one, and a recorder it
    constructs is a recorder over that stream.  A [customMediaStream] supplied
    meanwhile is not looked at: after [acquireMediaStream] a start records
    the acquired stream even when the caller has passed a stream of their own
    since. *)
Theorem startRecording_reuses_held_stream (self : Render)
    (timeSlice : option nat) (st : St) (s : MediaStream) :
  mediaStream st = Some s ->
  let st' := exec (startRecording self timeSlice) st in
  mediaStream st' = Some s
  /\ Forall (fun e => is_acquisition e = false) (added st st')
  /\ (heap st' = heap st
      \/ exists r, heap st' = heap st ++ [r]
                   /\ rec_stream r = s
                   /\ mediaRecorder st' = Some (length (heap st))).
Proof.
  intros Hs. cbv zeta. unfold exec. rewrite startRecording_split.
  assert (Ho : exists st0,
            obtain_stream self st = (Returned (Some s), st0)
            /\ trace st0 = trace st /\ mediaStream st0 = Some s
            /\ heap st0 = heap st).
  { unfold obtain_stream. unfold_monad. cbn.
    destruct (notnull (error st)); cbn; rewrite Hs; by eexists. }
  destruct Ho as (st0 & -> & Ht0 & Hs0 & Hh0).
  pose proof (record_keeps_mediaStream self timeSlice s st0) as Hk.
  cbn in Hk.
  destruct (record_emits (fun e => negb (is_acquisition e)) self timeSlice s
              (fun _ => eq_refl) (fun _ _ => eq_refl) eq_refl eq_refl eq_refl
              (fun _ => eq_refl) st0) as (l & Hl & Hall).
  split; [congruence|]. split.
  - rewrite (added_app _ _ l) by congruence.
    eapply Forall_impl; [exact Hall|]. intros e He.
    by apply negb_true_iff.
  - clear Hk l Hl Hall.
    destruct (getWindow self st0) as [[w|e] st1] eqn:Hw.
    + destruct (getWindow_frame _ _ _ _ Hw) as (_ & _ & _ & Hh1).
      destruct (MediaRecorder w) as [cls|] eqn:Hcls.
      * rewrite (record_run _ _ _ _ _ _ _ Hw Hcls).
        destruct (construct cls s _); cbn; [left; congruence|].
        destruct (start cls s _ timeSlice); cbn; right; eexists;
          (split; [rewrite Hh1, Hh0; reflexivity|]);
          (split; [done|congruence]).
      * unfold record. rewrite (bind_run _ _ _ _ _ Hw).
        unfold new_MediaRecorder. rewrite Hcls. cbn. left. congruence.
    + unfold record. unfold bind at 1. rewrite Hw. cbn. left.
      rewrite <- Hh0. revert Hw. unfold getWindow. run_monad.
      repeat (case_match; simplify_eq; cbn in * ); intros [= <- <-]; done.
Qed.

Lemma startRecording_reuses_held_stream_example :
  let st := Scenario.acquired in
  let st' := exec (startRecording (Fixture.custom_render 1) None) st in
  mediaStream st' = Some Fixture.user_stream
  /\ Forall (fun e => is_acquisition e = false) (added st st')
  /\ (heap st' = heap st
      \/ exists r, heap st' = heap st ++ [r]
                   /\ rec_stream r = Fixture.user_stream
                   /\ mediaRecorder st' = Some (length (heap st))).
Proof.
  apply (startRecording_reuses_held_stream (Fixture.custom_render 1) None
           Scenario.acquired Fixture.user_stream).
  vm_compute. reflexivity.
Defined.
